(** * acc_datalogger: the notification demultiplexer and file-receive protocol

    A shallow embedding of [src/acc_datalogger.py]: the [FileReceiver]
    class, the notification slot [MainWindow._handle_notification], the
    watchdog slot [MainWindow.on_rx_timeout], the console helpers, and
    [BLEWorker.connect] and [BLEWorker.disconnect], followed by the
    properties of the receive protocol.

    Left out: the widgets, [BLEWorker.scan] and [BLEWorker.send_command].
    A command handed to [send_command] is recorded as a call at the moment
    its task is created; what these methods write to the console arrives
    through the [log] signal, which is an event of its own.

    Python values are modelled as follows.
    - [str] is a list of Unicode code points ([N]); [bytes]/[bytearray] is a
      list of [byte].
    - [int] is [Z].
    - Attributes of an object are fields of a record; a method is a
      computation in the monad [M] over that record, which threads the
      object, the exception (if one is raised) and the calls made to the
      outside world (file system, stdout, the asyncio loop, the Qt timer). *)

From Stdlib Require Import Strings.String Strings.Byte DecimalString.
From Stdlib Require Import ZArith NArith List Bool Lia.
From Stdlib Require DecimalZ DecimalPos.
Import ListNotations.

Local Open Scope Z_scope.

(** ** Python built-ins used by the program *)

Module Py.

Definition str := list N.
Definition bytes := list byte.

(** A [str] literal. *)
Definition lit (s : String.string) : str :=
  map (fun b => Byte.to_N b) (String.list_byte_of_string s).

Definition len {A} (l : list A) : Z := Z.of_nat (List.length l).
Arguments lit s%_string.

Fixpoint str_eqb (a b : str) : bool :=
  match a, b with
  | [], [] => true
  | x :: a', y :: b' => N.eqb x y && str_eqb a' b'
  | _, _ => false
  end.

(** [s.startswith(p)] *)
Fixpoint startswith (p s : str) : bool :=
  match p, s with
  | [], _ => true
  | x :: p', y :: s' => N.eqb x y && startswith p' s'
  | _ :: _, [] => false
  end.

(** [p in s] *)
Fixpoint contains (p s : str) : bool :=
  startswith p s ||
  match s with
  | [] => false
  | _ :: s' => contains p s'
  end.

(** [s.endswith(p)] *)
Definition endswith (p s : str) : bool := startswith (rev p) (rev s).

Definition NL : N := 10%N.
Definition CR : N := 13%N.

(** [bytes.decode(errors="replace")]: UTF-8, every maximal ill-formed
    subsequence replaced by U+FFFD. *)
Definition REPLACEMENT : N := 65533%N.

Definition is_cont (b : N) : bool := (128 <=? b)%N && (b <=? 191)%N.

(** Number of continuation bytes announced by a lead byte (0: not a lead). *)
Definition utf8_need (b0 : N) : nat :=
  if (194 <=? b0)%N && (b0 <=? 223)%N then 1%nat
  else if (224 <=? b0)%N && (b0 <=? 239)%N then 2%nat
  else if (240 <=? b0)%N && (b0 <=? 244)%N then 3%nat
  else 0%nat.

(** The second byte is constrained by the lead byte (no overlong forms, no
    surrogates, nothing above U+10FFFF). *)
Definition utf8_second_ok (b0 b1 : N) : bool :=
  if (b0 =? 224)%N then (160 <=? b1)%N && (b1 <=? 191)%N
  else if (b0 =? 237)%N then (128 <=? b1)%N && (b1 <=? 159)%N
  else if (b0 =? 240)%N then (144 <=? b1)%N && (b1 <=? 191)%N
  else if (b0 =? 244)%N then (128 <=? b1)%N && (b1 <=? 143)%N
  else is_cont b1.

Definition low6 (b : N) : N := N.land b 63.

Fixpoint decode_N (fuel : nat) (bs : list N) : str :=
  match fuel with
  | O => []
  | S fuel =>
    match bs with
    | [] => []
    | b0 :: r0 =>
      if (b0 <? 128)%N then b0 :: decode_N fuel r0
      else match utf8_need b0 with
      | O => REPLACEMENT :: decode_N fuel r0
      | S k =>
        match r0 with
        | [] => [REPLACEMENT]
        | b1 :: r1 =>
          if negb (utf8_second_ok b0 b1) then REPLACEMENT :: decode_N fuel r0
          else match k with
          | O => (N.shiftl (N.land b0 31) 6 + low6 b1)%N :: decode_N fuel r1
          | S k =>
            match r1 with
            | [] => [REPLACEMENT]
            | b2 :: r2 =>
              if negb (is_cont b2) then REPLACEMENT :: decode_N fuel r1
              else match k with
              | O => (N.shiftl (N.land b0 15) 12 + N.shiftl (low6 b1) 6
                      + low6 b2)%N :: decode_N fuel r2
              | S _ =>
                match r2 with
                | [] => [REPLACEMENT]
                | b3 :: r3 =>
                  if negb (is_cont b3) then REPLACEMENT :: decode_N fuel r2
                  else (N.shiftl (N.land b0 7) 18 + N.shiftl (low6 b1) 12
                        + N.shiftl (low6 b2) 6 + low6 b3)%N
                       :: decode_N fuel r3
                end
              end
            end
          end
        end
      end
    end
  end.

(** Every round consumes at least one byte, so [length data] rounds
    decode the whole input. *)
Definition decode (data : bytes) : str :=
  decode_N (List.length data) (map Byte.to_N data).

(** [str.isspace] on one code point. *)
Definition isspace (c : N) : bool :=
  ((9 <=? c) && (c <=? 13) || (28 <=? c) && (c <=? 32)
   || (c =? 133) || (c =? 160) || (c =? 5760)
   || (8192 <=? c) && (c <=? 8202)
   || (c =? 8232) || (c =? 8233) || (c =? 8239) || (c =? 8287)
   || (c =? 12288))%N.

Fixpoint lstrip (s : str) : str :=
  match s with
  | c :: s' => if isspace c then lstrip s' else s
  | [] => []
  end.

(** [s.strip()] *)
Definition strip (s : str) : str := rev (lstrip (rev (lstrip s))).

(** [s.split(sep, 1)] for a one-character [sep]: the text before the first
    [sep] and, when there is one, the text after it. *)
Fixpoint split1 (sep : N) (s : str) : str * option str :=
  match s with
  | [] => ([], None)
  | c :: s' =>
    if (c =? sep)%N then ([], Some s')
    else let '(a, b) := split1 sep s' in (c :: a, b)
  end.

(** Line boundaries of [str.splitlines]. *)
Definition is_linebreak (c : N) : bool :=
  ((10 <=? c) && (c <=? 13) || (28 <=? c) && (c <=? 30)
   || (c =? 133) || (c =? 8232) || (c =? 8233))%N.

(** [s.splitlines(keepends=True)] *)
Fixpoint splitlines (s : str) : list str :=
  match s with
  | [] => []
  | c :: s' =>
    if is_linebreak c then
      match s' with
      | d :: s'' =>
        if (c =? CR)%N && (d =? NL)%N then [c; d] :: splitlines s''
        else [c] :: splitlines s'
      | [] => [[c]]
      end
    else
      match splitlines s' with
      | [] => [[c]]
      | l :: ls => (c :: l) :: ls
      end
  end.

(** First code point of every run of ten decimal digits (Unicode category
    Nd); the digit at offset [i] of a run has value [i]. *)
Definition decimal_zeros : list N :=
  [48; 1632; 1776; 1984; 2406; 2534; 2662; 2790; 2918; 3046; 3174; 3302;
   3430; 3558; 3664; 3792; 3872; 4160; 4240; 6112; 6160; 6470; 6608; 6784;
   6800; 6992; 7088; 7232; 7248; 42528; 43216; 43264; 43472; 43504; 43600;
   44016; 65296; 66720; 68912; 69734; 69872; 69942; 70096; 70384; 70736;
   70864; 71248; 71360; 71472; 71904; 72016; 72784; 73040; 73120; 92768;
   92864; 93008; 120782; 120792; 120802; 120812; 120822; 123200; 123632;
   125264; 130032]%N.

Fixpoint decimal_in (zs : list N) (c : N) : option Z :=
  match zs with
  | [] => None
  | z :: zs' =>
    if ((z <=? c) && (c <? z + 10))%N then Some (Z.of_N (c - z))
    else decimal_in zs' c
  end.

Definition decimal (c : N) : option Z := decimal_in decimal_zeros c.

Definition UNDERSCORE : N := 95%N.

(** Digits of an integer literal, most significant first; a single
    underscore is allowed between two digits. [after_digit] tells whether
    the previous character was a digit; the result carries the value and
    the number of digits read. *)
Fixpoint digits (after_digit : bool) (acc : Z) (n : nat) (s : str)
  : option (Z * nat) :=
  match s with
  | [] => if after_digit then Some (acc, n) else None
  | c :: s' =>
    if (c =? UNDERSCORE)%N then
      if after_digit then digits false acc n s' else None
    else match decimal c with
         | Some d => digits true (10 * acc + d) (S n) s'
         | None => None
         end
  end.

(** Whitespace skipped by [int()] around the literal. *)
Definition int_space (c : N) : bool :=
  if (c <? 127)%N then ((9 <=? c) && (c <=? 13) || (c =? 32))%N
  else isspace c.

Fixpoint int_lstrip (s : str) : str :=
  match s with
  | c :: s' => if int_space c then int_lstrip s' else s
  | [] => []
  end.

(** [sys.get_int_max_str_digits()] *)
Definition int_max_str_digits : nat := 4300.

(** [int(s)]: [None] stands for [ValueError]. *)
Definition int (s : str) : option Z :=
  let s := rev (int_lstrip (rev (int_lstrip s))) in
  let '(neg, body) :=
    match s with
    | c :: s' =>
      if (c =? 45)%N then (true, s')
      else if (c =? 43)%N then (false, s')
      else (false, s)
    | [] => (false, s)
    end in
  match digits false 0 0 body with
  | Some (v, n) =>
    if (n <=? int_max_str_digits)%nat
    then Some (if neg then - v else v)
    else None
  | None => None
  end.

(** [str(n)] for an [int]. *)
Definition str_of_int (n : Z) : str :=
  lit (NilZero.string_of_int (Z.to_int n)).

Definition SLASH : N := 47%N.

(** Components of a POSIX path: the text between slashes. *)
Fixpoint components (cur : str) (s : str) : list str :=
  match s with
  | [] => [rev cur]
  | c :: s' =>
    if (c =? SLASH)%N then rev cur :: components [] s'
    else components (c :: cur) s'
  end.

Definition is_dot (p : str) : bool := str_eqb p [46%N].

(** [Path(s).name]: the last component that is neither empty nor ["."],
    the empty string when there is none. *)
Definition path_name (s : str) : str :=
  last (filter (fun p => negb (str_eqb p []) && negb (is_dot p))
               (components [] s)) [].

End Py.

Import Py.

(** ** Exceptions, calls to the outside world, and the method monad *)

(** The exceptions the modelled code can raise. Only the [try] blocks of
    the Receiving branch and of the BLE worker format [str(e)], and only
    [EnvError] is raised inside them; the text given to the two
    [ValueError]s is never shown (Python quotes the literal with [repr]). *)
Inductive Exn :=
| ValueError_unpack               (* not enough values to unpack *)
| ValueError_int (literal : str)  (* invalid literal for int() with base 10 *)
| EnvError (msg : str).           (* raised by open/write/close or by bleak *)

Definition exn_str (e : Exn) : str :=
  match e with
  | ValueError_unpack => lit "not enough values to unpack (expected 2, got 1)"
  | ValueError_int s => lit "invalid literal for int() with base 10: " ++ s
  | EnvError m => m
  end.

(** What a method does to its collaborators, in program order. *)
Inductive Effect :=
| Print (text : str)                    (* print(text) *)
| FileOpen (name : str)                 (* open(script_dir / name, "wb") *)
| FileWrite (name : str) (data : bytes) (* file.write(data) *)
| FileClose (name : str)                (* file.close() *)
| CreateTask (command : str)
    (* asyncio.create_task(self.ble.send_command(command)) *)
| ConsoleAppend (text : str)            (* console_deque.append(text) *)
| BleDisconnect (addr : str).           (* await client.disconnect() *)

(** How the outside world answers during one slot invocation: [Some msg]
    means the call raises an exception whose [str] is [msg]. *)
Record Env := {
  open_raises : str -> option str;
  write_raises : bytes -> option str;
  close_raises : option str;
  disconnect_raises : option str;
  connect_raises : option str;
  start_notify_raises : option str }.

(** An environment in which nothing fails. *)
Definition calm : Env :=
  {| open_raises := fun _ => None; write_raises := fun _ => None;
     close_raises := None; disconnect_raises := None;
     connect_raises := None; start_notify_raises := None |}.

Inductive Res (A : Type) :=
| Ok (a : A)
| Raise (e : Exn).
Arguments Ok {A} a.
Arguments Raise {A} e.

Record Out (S A : Type) := mkOut {
  result : Res A;        (* value returned, or exception propagated *)
  final : S;             (* the object afterwards (kept when raising) *)
  calls : list Effect }.
Arguments mkOut {S A}.
Arguments result {S A}.
Arguments final {S A}.
Arguments calls {S A}.

Definition M (S A : Type) : Type := S -> Out S A.

Definition ret {S A} (a : A) : M S A := fun s => mkOut (Ok a) s [].

Definition bind {S A B} (m : M S A) (k : A -> M S B) : M S B :=
  fun s =>
    match m s with
    | mkOut (Ok a) s1 c1 =>
      match k a s1 with
      | mkOut r s2 c2 => mkOut r s2 (c1 ++ c2)
      end
    | mkOut (Raise e) s1 c1 => mkOut (Raise e) s1 c1
    end.

Definition raise {S A} (e : Exn) : M S A := fun s => mkOut (Raise e) s [].

(** A statement that touches no attribute and calls nobody. *)
Definition lift {S A} (r : Res A) : M S A := fun s => mkOut r s [].

(** [try: m  except Exception as e: h e] *)
Definition try_except {S A} (m : M S A) (h : Exn -> M S A) : M S A :=
  fun s =>
    match m s with
    | mkOut (Ok a) s1 c1 => mkOut (Ok a) s1 c1
    | mkOut (Raise e) s1 c1 =>
      match h e s1 with
      | mkOut r s2 c2 => mkOut r s2 (c1 ++ c2)
      end
    end.

Definition get {S} : M S S := fun s => mkOut (Ok s) s [].
Definition modify {S} (f : S -> S) : M S unit := fun s => mkOut (Ok tt) (f s) [].
Definition call {S} (e : Effect) : M S unit := fun s => mkOut (Ok tt) s [e].

(** A call that the environment may make raise. *)
Definition call_env {S} (answer : option str) (e : Effect) : M S unit :=
  match answer with
  | Some msg => raise (EnvError msg)
  | None => call e
  end.

(** Run a method of a sub-object held in a field. *)
Definition zoom {S T A} (proj : S -> T) (upd : T -> S -> S) (m : M T A) : M S A :=
  fun s =>
    match m (proj s) with
    | mkOut r t c => mkOut r (upd t s) c
    end.

Declare Scope method_scope.
Delimit Scope method_scope with method.
Notation "x <- m ;; k" := (bind m (fun x => k))
  (at level 61, m at next level, right associativity) : method_scope.
Notation "m ;; k" := (bind m (fun _ => k))
  (at level 61, right associativity) : method_scope.
Local Open Scope method_scope.

(** [for x in xs: body x] *)
Fixpoint for_each {S A} (xs : list A) (body : A -> M S unit) : M S unit :=
  match xs with
  | [] => ret tt
  | x :: xs' => body x ;; for_each xs' body
  end.

Definition when {S} (b : bool) (m : M S unit) : M S unit :=
  if b then m else ret tt.

Definition FILE_PACKET_SIZE : Z := 1024.

(** ** class FileReceiver *)

Module FileReceiver.

Record t := mk {
  receiving : bool;
  file : option str;   (* the open file, known by its name under script_dir *)
  rx_bytes : Z;
  header : list N;
  file_size : Z }.

Definition set_receiving v (r : t) := mk v (file r) (rx_bytes r) (header r) (file_size r).
Definition set_file v (r : t) := mk (receiving r) v (rx_bytes r) (header r) (file_size r).
Definition set_rx_bytes v (r : t) := mk (receiving r) (file r) v (header r) (file_size r).
Definition set_header v (r : t) := mk (receiving r) (file r) (rx_bytes r) v (file_size r).
Definition set_file_size v (r : t) := mk (receiving r) (file r) (rx_bytes r) (header r) v.

Definition __init__ : t :=
  {| receiving := false; file := None; rx_bytes := 0; header := [];
     file_size := 0 |}.

Definition start_receiving (env : Env) (filename : str) (size : Z) : M t unit :=
  let safe_name := path_name filename in
  call_env (open_raises env safe_name) (FileOpen safe_name) ;;
  modify (set_file (Some safe_name)) ;;
  modify (set_rx_bytes 0) ;;
  modify (set_header []) ;;
  modify (set_file_size size) ;;
  modify (set_receiving true).

Definition stop_receiving (env : Env) : M t unit :=
  r <- get ;;
  match file r with
  | Some f =>
    call_env (close_raises env) (FileClose f) ;;
    modify (set_file None)
  | None => ret tt
  end ;;
  modify (set_receiving false).

Definition handle_data (env : Env) (data : bytes) : M t unit :=
  r <- get ;;
  match receiving r, file r with
  | true, Some f =>
    call_env (write_raises env data) (FileWrite f data) ;;
    modify (fun r => set_rx_bytes (rx_bytes r + len data) r) ;;
    r <- get ;;
    call (Print (lit "Received " ++ str_of_int (rx_bytes r) ++ lit "/"
                 ++ str_of_int (file_size r) ++ lit " bytes")) ;;
    when (rx_bytes r >=? file_size r)
      (call (Print (lit "File receive complete")) ;;
       stop_receiving env)
  | _, _ => ret tt
  end.

End FileReceiver.

(** ** Qt and bleak objects held by the window *)

(** [QtCore.QTimer]: a repeating timer (it is never made single-shot).
    [elapsed] counts the milliseconds since it was last (re)started. *)
Record QTimer := mkTimer {
  interval : Z;
  active : bool;
  elapsed : Z }.

(** [QTimer.start()]: starts the timer, or stops and restarts it when it is
    already running. *)
Definition QTimer_start (t : QTimer) : QTimer :=
  {| interval := interval t; active := true; elapsed := 0 |}.

(** [collections.deque(maxlen=n)] *)
Record deque := mkDeque {
  maxlen : nat;
  items : list str }.

(** Keep the last [n] elements. *)
Definition keep_last {A} (n : nat) (l : list A) : list A :=
  skipn (List.length l - n) l.

Definition deque_of (l : list str) (n : nat) : deque :=
  {| maxlen := n; items := keep_last n l |}.

Definition deque_append (x : str) (d : deque) : deque :=
  deque_of (items d ++ [x]) (maxlen d).

Definition deque_clear (d : deque) : deque :=
  {| maxlen := maxlen d; items := [] |}.

(** [bleak.BleakClient] *)
Record BleakClient := mkClient {
  address : str;
  is_connected : bool }.

(** The attributes of [BLEWorker] that its methods read or write. *)
Record BLEWorker := mkBLE {
  client : option BleakClient;
  _connected_addr : option str;
  rx_char_uuid : option str;
  tx_char_uuid : option str }.

Definition set_client v (b : BLEWorker) :=
  mkBLE v (_connected_addr b) (rx_char_uuid b) (tx_char_uuid b).
Definition set__connected_addr v (b : BLEWorker) :=
  mkBLE (client b) v (rx_char_uuid b) (tx_char_uuid b).
Definition set_rx_char_uuid v (b : BLEWorker) :=
  mkBLE (client b) (_connected_addr b) v (tx_char_uuid b).
Definition set_tx_char_uuid v (b : BLEWorker) :=
  mkBLE (client b) (_connected_addr b) (rx_char_uuid b) v.

(** ** class MainWindow *)

Record MainWindow := mkWindow {
  last_line : str;
  console_view : str;          (* plain text of the QTextEdit *)
  status : str;                (* text of the status-bar label *)
  ble : BLEWorker;
  file_receiver : FileReceiver.t;
  packet_bytes_num : Z;
  packet_bytes : bytes;
  rx_watchdog : QTimer;
  console_deque : deque }.

Definition set_last_line v (w : MainWindow) :=
  mkWindow v (console_view w) (status w) (ble w) (file_receiver w)
           (packet_bytes_num w) (packet_bytes w) (rx_watchdog w) (console_deque w).
Definition set_console_view v (w : MainWindow) :=
  mkWindow (last_line w) v (status w) (ble w) (file_receiver w)
           (packet_bytes_num w) (packet_bytes w) (rx_watchdog w) (console_deque w).
Definition set_status_text v (w : MainWindow) :=
  mkWindow (last_line w) (console_view w) v (ble w) (file_receiver w)
           (packet_bytes_num w) (packet_bytes w) (rx_watchdog w) (console_deque w).
Definition set_ble v (w : MainWindow) :=
  mkWindow (last_line w) (console_view w) (status w) v (file_receiver w)
           (packet_bytes_num w) (packet_bytes w) (rx_watchdog w) (console_deque w).
Definition set_file_receiver v (w : MainWindow) :=
  mkWindow (last_line w) (console_view w) (status w) (ble w) v
           (packet_bytes_num w) (packet_bytes w) (rx_watchdog w) (console_deque w).
Definition set_packet_bytes_num v (w : MainWindow) :=
  mkWindow (last_line w) (console_view w) (status w) (ble w) (file_receiver w)
           v (packet_bytes w) (rx_watchdog w) (console_deque w).
Definition set_packet_bytes v (w : MainWindow) :=
  mkWindow (last_line w) (console_view w) (status w) (ble w) (file_receiver w)
           (packet_bytes_num w) v (rx_watchdog w) (console_deque w).
Definition set_rx_watchdog v (w : MainWindow) :=
  mkWindow (last_line w) (console_view w) (status w) (ble w) (file_receiver w)
           (packet_bytes_num w) (packet_bytes w) v (console_deque w).
Definition set_console_deque v (w : MainWindow) :=
  mkWindow (last_line w) (console_view w) (status w) (ble w) (file_receiver w)
           (packet_bytes_num w) (packet_bytes w) (rx_watchdog w) v.

(** The mode of the transfer state machine: [true] is Receiving. *)
Definition is_receiving (w : MainWindow) : bool :=
  FileReceiver.receiving (file_receiver w).

(** The part of [MainWindow.__init__] that sets up the state (the widgets
    contribute the initial status text and the spin box value 50). *)
Definition __init__ : MainWindow :=
  {| last_line := [];
     console_view := [];
     status := lit "Ready";
     ble := mkBLE None None None None;
     file_receiver := FileReceiver.__init__;
     packet_bytes_num := 0;
     packet_bytes := [];
     rx_watchdog := {| interval := 200; active := false; elapsed := 0 |};
     console_deque := {| maxlen := 50; items := [] |} |}.

(** [self.file_receiver.<method>(...)] *)
Definition on_receiver {A} (m : M FileReceiver.t A) : M MainWindow A :=
  zoom file_receiver set_file_receiver m.

(** [self.console_deque.append(text)] *)
Definition console_append (text : str) : M MainWindow unit :=
  call (ConsoleAppend text) ;;
  modify (fun w => set_console_deque (deque_append text (console_deque w)) w).

Definition set_status (text : str) : M MainWindow unit :=
  modify (set_status_text text).

Definition _refresh_console_widget : M MainWindow unit :=
  modify (fun w => set_console_view (List.concat (items (console_deque w))) w).

Definition on_max_lines_changed (val : nat) : M MainWindow unit :=
  modify (fun w => set_console_deque (deque_of (items (console_deque w)) val) w) ;;
  _refresh_console_widget.

Definition on_clear_console : M MainWindow unit :=
  modify (fun w => set_console_deque (deque_clear (console_deque w)) w) ;;
  _refresh_console_widget.

Definition _append_console (text : str) : M MainWindow unit :=
  w <- get ;;
  when (negb (is_receiving w))
    (console_append text ;;
     _refresh_console_widget).

Definition on_ble_connected (connected : bool) : M MainWindow unit :=
  set_status (if connected then lit "Connected" else lit "Disconnected").

(** *** BLEWorker.disconnect and BLEWorker.connect

    The worker's signals are connected to the window's slots in
    [MainWindow.__init__]: [log] to [_append_console], [connected] to
    [on_ble_connected]. An emit runs the slot at once. *)
Definition log_emit : str -> M MainWindow unit := _append_console.
Definition connected_emit : bool -> M MainWindow unit := on_ble_connected.

Definition disconnect (env : Env) : M MainWindow unit :=
  w <- get ;;
  match client (ble w) with
  | Some c =>
    let addr := address c in
    log_emit (lit "Disconnecting from " ++ addr ++ lit " ..." ++ [NL]) ;;
    r <- try_except
           (call_env (disconnect_raises env) (BleDisconnect addr) ;;
            log_emit (lit "Disconnected" ++ [NL]))
           (fun e => log_emit (lit "Error disconnecting: " ++ exn_str e ++ [NL])) ;;
    (* finally: *)
    modify (fun w => set_ble (set_client None (ble w)) w) ;;
    connected_emit false
  | None => ret tt
  end.

Definition truthy (s : option str) : bool :=
  match s with
  | Some (_ :: _) => true
  | _ => false
  end.

Definition connect (env : Env) (addr : str) (rx tx : option str) : M MainWindow unit :=
  w <- get ;;
  when (match client (ble w) with Some c => is_connected c | None => false end)
    (disconnect env) ;;
  log_emit (lit "Connecting to " ++ addr ++ lit " ..." ++ [NL]) ;;
  match connect_raises env with
  | None =>
    modify (fun w => set_ble (set_client (Some (mkClient addr true)) (ble w)) w) ;;
    modify (fun w => set_ble (set__connected_addr (Some addr) (ble w)) w) ;;
    log_emit (lit "Connected to " ++ addr ++ [NL]) ;;
    connected_emit true ;;
    when (truthy tx)
      (match start_notify_raises env with
       | None =>
         log_emit (lit "Started notify on " ++ match tx with Some u => u | None => [] end ++ [NL])
       | Some msg =>
         log_emit (lit "Failed to start notify on "
                   ++ match tx with Some u => u | None => [] end
                   ++ lit ": " ++ msg ++ [NL])
       end) ;;
    modify (fun w => set_ble (set_rx_char_uuid rx (ble w)) w) ;;
    modify (fun w => set_ble (set_tx_char_uuid tx (ble w)) w)
  | Some msg =>
    modify (fun w => set_ble (set_client (Some (mkClient addr false)) (ble w)) w) ;;
    log_emit (lit "Connect failed: " ++ msg ++ [NL]) ;;
    connected_emit false
  end.

Definition on_disconnect_clicked (env : Env) : M MainWindow unit :=
  disconnect env.

(** *** BLEWorker.send_command and the slots that call it *)

(** The byte of value [n], for [n] below 256. *)
Definition to_byte (n : N) : byte :=
  match Byte.of_N n with
  | Some b => b
  | None => x00
  end.

Definition is_surrogate (c : N) : bool :=
  (55296 <=? c)%N && (c <=? 57343)%N.

(** UTF-8 encoding of one code point that is not a surrogate (code points
    are below 0x110000). *)
Definition encode_char (c : N) : bytes :=
  if (c <? 128)%N then [to_byte c]
  else if (c <? 2048)%N then
    [to_byte (192 + N.shiftr c 6); to_byte (128 + low6 c)]
  else if (c <? 65536)%N then
    [to_byte (224 + N.shiftr c 12); to_byte (128 + low6 (N.shiftr c 6));
     to_byte (128 + low6 c)]
  else
    [to_byte (240 + N.shiftr c 18); to_byte (128 + low6 (N.shiftr c 12));
     to_byte (128 + low6 (N.shiftr c 6)); to_byte (128 + low6 c)].

Definition hex_digit (n : N) : N :=
  if (n <? 10)%N then (48 + n)%N else (87 + n)%N.

(** A code point below 0x10000 as four lower-case hexadecimal digits. *)
Definition hex4 (c : N) : str :=
  [hex_digit (N.land (N.shiftr c 12) 15); hex_digit (N.land (N.shiftr c 8) 15);
   hex_digit (N.land (N.shiftr c 4) 15); hex_digit (N.land c 15)].

(** Number of surrogates at the front of a text. *)
Fixpoint surrogate_run (s : str) : Z :=
  match s with
  | c :: s' => if is_surrogate c then 1 + surrogate_run s' else 0
  | [] => 0
  end.

(** [str(e)] of the [UnicodeEncodeError] raised for the surrogate [c] at
    position [pos], followed by [more] other surrogates. *)
Definition encode_error (pos : Z) (c : N) (more : Z) : str :=
  if more =? 0 then
    lit "'utf-8' codec can't encode character '\u" ++ hex4 c
    ++ lit "' in position " ++ str_of_int pos
    ++ lit ": surrogates not allowed"
  else
    lit "'utf-8' codec can't encode characters in position "
    ++ str_of_int pos ++ lit "-" ++ str_of_int (pos + more)
    ++ lit ": surrogates not allowed".

(** [s.encode()] from position [pos] on: the bytes, or the text of the
    error. *)
Fixpoint encode_from (pos : Z) (s : str) : bytes + str :=
  match s with
  | [] => inl []
  | c :: s' =>
    if is_surrogate c then inr (encode_error pos c (surrogate_run s'))
    else match encode_from (pos + 1) s' with
         | inl bs => inl (encode_char c ++ bs)
         | inr msg => inr msg
         end
  end.

(** [str.encode()] *)
Definition encode (s : str) : bytes + str := encode_from 0 s.

(** [data.endswith(b"\n")] *)
Definition ends_with_newline (data : bytes) : bool :=
  match rev data with
  | b :: _ => Byte.eqb b x0a
  | [] => false
  end.

(** A call [client.write_gatt_char(char_uuid, value)]. *)
Record GattWrite := mkGattWrite {
  char_uuid : option str;
  value : bytes }.

(** [BLEWorker.send_command]. [gatt_raises] tells whether
    [write_gatt_char] raises, and with which text; the value returned is
    the write that was made, if it was made and did not raise (the Python
    coroutine returns nothing). *)
Definition send_command (gatt_raises : option str) (text : str)
  : M MainWindow (option GattWrite) :=
  w <- get ;;
  if negb (match client (ble w) with
           | Some c => is_connected c
           | None => false
           end)
  then
    log_emit (lit "Not connected: cannot send" ++ [NL]) ;;
    ret None
  else if negb (truthy (tx_char_uuid (ble w))) then
    log_emit (lit "No TX characteristic configured" ++ [NL]) ;;
    ret None
  else
    match encode text with
    | inr msg =>
      log_emit (lit "Send failed: " ++ msg ++ [NL]) ;;
      ret None
    | inl data =>
      let data := if ends_with_newline data then data else data ++ [x0a] in
      match gatt_raises with
      | Some msg =>
        log_emit (lit "Send failed: " ++ msg ++ [NL]) ;;
        ret None
      | None =>
        log_emit (lit "> " ++ text ++ [NL]) ;;
        ret (Some (mkGattWrite (rx_char_uuid (ble w)) data))
      end
    end.

(** [MainWindow.on_send_scpi], for the text [input] of the command field. *)
Definition on_send_scpi (gatt_raises : option str) (input : str)
  : M MainWindow (option GattWrite) :=
  let txt := strip input in
  match txt with
  | [] => ret None
  | _ => send_command gatt_raises txt
  end.

(** [s or None] *)
Definition or_None (s : str) : option str :=
  match s with
  | [] => None
  | _ => Some s
  end.

(** [MainWindow.on_connect_clicked]: [sel] is the address kept in the
    selected item of the device list, if an item is selected, and
    [rx_text] and [tx_text] are the texts of the two UUID fields. *)
Definition on_connect_clicked (env : Env) (sel : option str)
  (rx_text tx_text : str) : M MainWindow unit :=
  match sel with
  | None => set_status (lit "Select device first")
  | Some addr =>
    let rx := or_None (strip rx_text) in
    let tx := or_None (strip tx_text) in
    connect env addr rx tx
  end.

(** *** MainWindow._handle_notification *)

Definition COLON : N := 58%N.
Definition COMMA : N := 44%N.
Definition MARKER : str := lit "Sending file:".

Definition FIL_ACK : str := lit "FIL:ACK" ++ [NL].
Definition FIL_NACK : str := lit "FIL:NACK" ++ [NL].

Definition started_notice (filename : str) (filesize : Z) : str :=
  lit "Started receiving " ++ filename ++ lit " (" ++ str_of_int filesize
  ++ lit " bytes)" ++ [NL].
Definition complete_notice : str := lit "File receive complete" ++ [NL].
Definition overrun_diagnostic : str :=
  lit "Error: received more than " ++ str_of_int FILE_PACKET_SIZE
  ++ lit " bytes without ACK" ++ [NL].
Definition error_diagnostic (e : Exn) : str :=
  lit "File receive error: " ++ exn_str e ++ [NL].
Definition timeout_diagnostic : str :=
  lit "File receive timeout: no data received for 1 second" ++ [NL].

(** Unpacking a sequence into two targets. *)
Definition unpack2 {A} (p : A * option A) : Res (A * A) :=
  match p with
  | (a, Some b) => Ok (a, b)
  | (_, None) => Raise ValueError_unpack
  end.

(** The three statements that read a directive:
    [_, payload = line.split(":", 1)],
    [filename, filesize_part = map(str.strip, payload.split(",", 1))] and
    [filesize = int(filesize_part)]. They touch no attribute. *)
Definition parse_directive (line : str) : Res (str * Z) :=
  match unpack2 (split1 COLON line) with
  | Raise e => Raise e
  | Ok (_, payload) =>
    match unpack2 (split1 COMMA payload) with
    | Raise e => Raise e
    | Ok (a, b) =>
      let filename := strip a in
      let filesize_part := strip b in
      match int filesize_part with
      | Some filesize => Ok (filename, filesize)
      | None => Raise (ValueError_int filesize_part)
      end
    end
  end.

(** The body of [for line in lines]. *)
Definition handle_line (env : Env) (line : str) : M MainWindow unit :=
  when (contains MARKER line && contains [NL] line)
    (d <- lift (parse_directive line) ;;
     on_receiver (FileReceiver.start_receiving env (fst d) (snd d)) ;;
     console_append (started_notice (fst d) (snd d)) ;;
     _refresh_console_widget) ;;
  if endswith [NL] line
  then console_append line
  else modify (set_last_line line).

(** The branch taken while [self.file_receiver.receiving]: the chunk is
    file payload. *)
Definition receive_chunk (env : Env) (data : bytes) : M MainWindow unit :=
  try_except
    (modify (fun w => set_packet_bytes (packet_bytes w ++ data) w) ;;
     modify (fun w => set_packet_bytes_num (packet_bytes_num w + len data) w) ;;
     w <- get ;;
     (if (packet_bytes_num w =? FILE_PACKET_SIZE)
         || (FileReceiver.rx_bytes (file_receiver w) + packet_bytes_num w
             >=? FileReceiver.file_size (file_receiver w))
      then
        call (CreateTask FIL_ACK) ;;
        on_receiver (FileReceiver.handle_data env (packet_bytes w)) ;;
        modify (set_packet_bytes_num 0) ;;
        modify (set_packet_bytes [])
      else
        when (packet_bytes_num w >? FILE_PACKET_SIZE)
          (console_append overrun_diagnostic)) ;;
     modify (fun w => set_rx_watchdog (QTimer_start (rx_watchdog w)) w) ;;
     w <- get ;;
     when (negb (is_receiving w))
       (console_append complete_notice ;;
        _refresh_console_widget))
    (fun e =>
       console_append (error_diagnostic e) ;;
       _refresh_console_widget).

(** The rest of the slot: the chunk is console text. *)
Definition receive_text (env : Env) (data : bytes) : M MainWindow unit :=
  let text := decode data in
  modify (fun w => set_last_line (last_line w ++ text) w) ;;
  w <- get ;;
  when (contains [NL] (last_line w))
    (for_each (splitlines (last_line w)) (handle_line env) ;;
     w <- get ;;
     when (endswith [NL] (last_line w))
       (modify (set_last_line []))) ;;
  _refresh_console_widget.

(** [data] arrives as a [bytearray], so the initial [data.encode()] raises
    [AttributeError] and leaves it as it is. *)
Definition _handle_notification (env : Env) (data : bytes) : M MainWindow unit :=
  w <- get ;;
  if is_receiving w
  then receive_chunk env data
  else receive_text env data.

(** *** MainWindow.on_rx_timeout *)

Definition on_rx_timeout : M MainWindow unit :=
  w <- get ;;
  when (is_receiving w)
    (modify (set_packet_bytes_num 0) ;;
     modify (set_packet_bytes []) ;;
     call (CreateTask FIL_NACK) ;;
     console_append timeout_diagnostic ;;
     _refresh_console_widget).

(** ** The event loop

    One millisecond of the Qt event loop with nothing else to do: a running
    [rx_watchdog] advances, and when its interval has elapsed it emits
    [timeout], which runs [on_rx_timeout], and starts over. *)
Definition tick : M MainWindow unit :=
  w <- get ;;
  let t := rx_watchdog w in
  if active t then
    if elapsed t + 1 >=? interval t then
      modify (set_rx_watchdog (mkTimer (interval t) true 0)) ;;
      on_rx_timeout
    else
      modify (set_rx_watchdog (mkTimer (interval t) true (elapsed t + 1)))
  else ret tt.

(** What the event loop delivers to the window. *)
Inductive Event :=
| Notification (env : Env) (data : bytes)   (* ble.notification_received *)
| RxTimeout                                 (* rx_watchdog.timeout *)
| Tick                                      (* a millisecond goes by *)
| Log (text : str)                          (* ble.log *)
| Connect (env : Env) (addr : str) (rx tx : option str)
| Disconnect (env : Env)                    (* the Disconnect button *)
| MaxLinesChanged (val : nat)
| ClearConsole.

Definition dispatch (ev : Event) : M MainWindow unit :=
  match ev with
  | Notification env data => _handle_notification env data
  | RxTimeout => on_rx_timeout
  | Tick => tick
  | Log text => _append_console text
  | Connect env addr rx tx => connect env addr rx tx
  | Disconnect env => on_disconnect_clicked env
  | MaxLinesChanged val => on_max_lines_changed val
  | ClearConsole => on_clear_console
  end.

(** Events are handled one after the other; an exception that escapes a slot
    ends that slot only, the window stays as the slot left it. *)
Fixpoint run (evs : list Event) (w : MainWindow) : MainWindow * list Effect :=
  match evs with
  | [] => (w, [])
  | ev :: evs' =>
    match dispatch ev w with
    | mkOut _ w1 c1 =>
      match run evs' w1 with
      | (w2, c2) => (w2, c1 ++ c2)
      end
    end
  end.

(** ** Observations on a list of calls *)

Definition appended (tr : list Effect) : list str :=
  flat_map (fun e => match e with ConsoleAppend t => [t] | _ => [] end) tr.

Definition stored (tr : list Effect) : list bytes :=
  flat_map (fun e => match e with FileWrite _ d => [d] | _ => [] end) tr.

Definition sent (tr : list Effect) : list str :=
  flat_map (fun e => match e with CreateTask c => [c] | _ => [] end) tr.

Definition opened (tr : list Effect) : list str :=
  flat_map (fun e => match e with FileOpen n => [n] | _ => [] end) tr.

(** * Vocabulary of the properties

    The predicates, observations and sample windows used to state the
    properties below. *)

(** What the slot does with a chunk that completes a packet. *)
Definition flushes (env : Env) (data : bytes) (w : MainWindow) : Prop :=
  let o := _handle_notification env data w in
  let w' := final o in
  result o = Ok tt
  /\ sent (calls o) = [FIL_ACK]
  /\ stored (calls o) = [packet_bytes w ++ data]
  /\ packet_bytes w' = []
  /\ packet_bytes_num w' = 0
  /\ rx_watchdog w' = QTimer_start (rx_watchdog w)
  /\ FileReceiver.rx_bytes (file_receiver w')
     = FileReceiver.rx_bytes (file_receiver w) + len (packet_bytes w ++ data)
  /\ FileReceiver.file_size (file_receiver w')
     = FileReceiver.file_size (file_receiver w)
  /\ (FileReceiver.rx_bytes (file_receiver w')
      >= FileReceiver.file_size (file_receiver w') ->
      is_receiving w' = false
      /\ appended (calls o) = [complete_notice]
      /\ console_deque w' = deque_append complete_notice (console_deque w))
  /\ (FileReceiver.rx_bytes (file_receiver w')
      < FileReceiver.file_size (file_receiver w') ->
      is_receiving w' = true
      /\ appended (calls o) = []
      /\ console_deque w' = console_deque w).

(** The window after the line "Sending file: calib.bin,<size>" arrived on a
    fresh window. *)
Definition announce (size : string) : bytes :=
  list_byte_of_string "Sending file: calib.bin," ++ list_byte_of_string size
  ++ [x0a].

(** A fresh window on which a 2048-byte transfer has just been announced. *)
Definition calib_2048 : MainWindow :=
  Eval vm_compute in final (_handle_notification calm (announce "2048") __init__).

(** The packet counter mirrors the packet buffer. *)
Definition consistent (w : MainWindow) : Prop :=
  packet_bytes_num w = len (packet_bytes w).


(** Two windows with the same packet buffer, packet counter and
    watchdog. *)
Definition same_packet (w w' : MainWindow) : Prop :=
  packet_bytes w' = packet_bytes w
  /\ packet_bytes_num w' = packet_bytes_num w
  /\ rx_watchdog w' = rx_watchdog w.

(** A directive line without a size field. *)
Definition bad_directive : bytes :=
  list_byte_of_string "Sending file: badsize" ++ [x0a].

(** A window that is connected and in the middle of a transfer: the
    directive has arrived and ten payload bytes after it. *)
Definition connected_receiving : MainWindow :=
  Eval vm_compute in
    fst (run [Connect calm (lit "AA:BB") (Some (lit "rx")) (Some (lit "tx"));
              Notification calm (announce "2048");
              Notification calm (repeat x00 10)] __init__).

(** The lines the slots may append while Receiving. *)
Definition receiving_diagnostic (l : str) : Prop :=
  l = overrun_diagnostic \/ l = timeout_diagnostic \/ l = complete_notice
  \/ exists e, l = error_diagnostic e.

(** A file system on which every write fails. *)
Definition disk_full : Env :=
  {| open_raises := fun _ => None;
     write_raises := fun _ => Some (lit "No space left on device");
     close_raises := None; disconnect_raises := None;
     connect_raises := None; start_notify_raises := None |}.

(** What the slot does with a chunk that completes a packet when the write
    raises an error whose text is [msg]. *)
Definition fails_to_store (env : Env) (data : bytes) (msg : str)
  (w : MainWindow) : Prop :=
  let o := _handle_notification env data w in
  let w' := final o in
  result o = Ok tt
  /\ appended (calls o) = [error_diagnostic (EnvError msg)]
  /\ console_deque w'
     = deque_append (error_diagnostic (EnvError msg)) (console_deque w)
  /\ console_view w' = concat (items (console_deque w'))
  /\ file_receiver w' = file_receiver w
  /\ stored (calls o) = []
  /\ sent (calls o) = [FIL_ACK]
  /\ packet_bytes w' = packet_bytes w ++ data
  /\ packet_bytes_num w' = packet_bytes_num w + len data
  /\ rx_watchdog w' = rx_watchdog w.

(** An open transfer whose watchdog has just been restarted by a chunk. *)
Definition calib_2048_started : MainWindow :=
  Eval vm_compute in
    final (_handle_notification calm (repeat x00 10) calib_2048).

(** What an expiry does to an open transfer. *)
Definition nacks (w : MainWindow) : Prop :=
  let o := on_rx_timeout w in
  result o = Ok tt
  /\ sent (calls o) = [FIL_NACK]
  /\ appended (calls o) = [timeout_diagnostic]
  /\ packet_bytes (final o) = []
  /\ packet_bytes_num (final o) = 0
  /\ file_receiver (final o) = file_receiver w
  /\ rx_watchdog (final o) = rx_watchdog w.




(** Scans the calls of a run. [prev] is the length of the last packet
    written to the file that is open, if any: a packet that is followed by
    another one in the same file must be [FILE_PACKET_SIZE] long. *)
Fixpoint boundaries_ok (prev : option nat) (tr : list Effect) : bool :=
  match tr with
  | [] => true
  | FileOpen _ :: tr' => boundaries_ok None tr'
  | FileWrite _ d :: tr' =>
    match prev with
    | Some n => Nat.eqb n 1024
    | None => true
    end && boundaries_ok (Some (List.length d)) tr'
  | _ :: tr' => boundaries_ok prev tr'
  end.

(** The length of the last packet written to the file that is open after
    the calls [tr]. *)
Fixpoint last_written (prev : option nat) (tr : list Effect) : option nat :=
  match tr with
  | [] => prev
  | FileOpen _ :: tr' => last_written None tr'
  | FileWrite _ d :: tr' => last_written (Some (List.length d)) tr'
  | _ :: tr' => last_written prev tr'
  end.

(** Nothing was written, and a window that is Receiving has opened a
    file. *)
Definition text_calls (w : MainWindow) (tr : list Effect) : Prop :=
  stored tr = [] /\ (is_receiving w = true -> opened tr <> []).

(** The file system closes the file without error. *)
Definition closes (ev : Event) : Prop :=
  match ev with
  | Notification env _ => close_raises env = None
  | _ => True
  end.

(** Between packets of an open transfer the last packet written, if any,
    was a full one. *)
Definition full_so_far (w : MainWindow) (prev : option nat) : Prop :=
  is_receiving w = true -> prev = None \/ prev = Some 1024%nat.

(** The bytes of an ASCII literal. *)
Definition text (s : string) : bytes := list_byte_of_string s.

(** The completed lines of a text, each with its newline, and the
    unterminated rest, when "\n" is the only line terminator. *)
Fixpoint lines_of (s : str) : list str * str :=
  match s with
  | [] => ([], [])
  | c :: s' =>
    let (ls, t) := lines_of s' in
    if (c =? NL)%N then ([c] :: ls, t)
    else match ls with
         | [] => ([], c :: t)
         | l :: ls' => ((c :: l) :: ls', t)
         end
  end.

(** Every line boundary of the text is "\n" or "\r\n"; the text may end
    with a "\r" whose "\n" has not arrived yet. *)
Fixpoint newline_only (s : str) : bool :=
  match s with
  | [] => true
  | c :: s' =>
    (if (c =? CR)%N
     then match s' with
          | [] => true
          | d :: _ => (d =? NL)%N
          end
     else negb (is_linebreak c) || (c =? NL)%N)
    && newline_only s'
  end.

(** The unterminated rest as [splitlines] yields it: no line when it is
    empty. *)
Definition rest_line (t : str) : list str :=
  match t with
  | [] => []
  | _ => [t]
  end.

(** The console after the lines [ls] were appended one by one. *)
Definition log_lines (ls : list str) (w : MainWindow) : MainWindow :=
  fold_left
    (fun w l => set_console_deque (deque_append l (console_deque w)) w) ls w.

(** Bytes below 128: each decodes to the code point of the same value. *)
Definition ascii_bytes (bs : bytes) : Prop :=
  Forall (fun b => (Byte.to_N b < 128)%N) bs.

(** A file system on which closing the file fails. *)
Definition close_fails : Env :=
  {| open_raises := fun _ => None; write_raises := fun _ => None;
     close_raises := Some (lit "[Errno 28] No space left on device");
     disconnect_raises := None;
     connect_raises := None; start_notify_raises := None |}.

(** A fresh window on which a 1024-byte transfer has just been announced. *)
Definition calib_1024 : MainWindow :=
  Eval vm_compute in final (_handle_notification calm (announce "1024") __init__).

(** A fresh window on which a 1500-byte transfer has just been announced. *)
Definition calib_1500 : MainWindow :=
  Eval vm_compute in final (_handle_notification calm (announce "1500") __init__).

(** Chunks that follow the packets of a payload: the first one starts
    [offset] bytes into the payload, none is empty, and none goes past the
    next multiple of [FILE_PACKET_SIZE]. *)
Fixpoint aligned (offset : Z) (chunks : list bytes) : bool :=
  match chunks with
  | [] => true
  | c :: cs =>
    (0 <? len c)
    && (offset mod FILE_PACKET_SIZE + len c <=? FILE_PACKET_SIZE)
    && aligned (offset + len c) cs
  end.

(** The lengths of the packets of a payload of [size] bytes cut every
    [FILE_PACKET_SIZE] bytes: full packets, then the remainder if there is
    one. *)
Definition packet_lengths (size : Z) : list Z :=
  repeat FILE_PACKET_SIZE (Z.to_nat (size / FILE_PACKET_SIZE))
  ++ (if size mod FILE_PACKET_SIZE =? 0 then []
      else [size mod FILE_PACKET_SIZE]).

(** ** Vocabulary of the further properties *)

(** The deque after the lines [ls] were appended to it one by one. *)
Definition deque_extend (ls : list str) (d : deque) : deque :=
  fold_left (fun d l => deque_append l d) ls d.

(** A deque that holds no more than its capacity. *)
Definition within_capacity (d : deque) : Prop :=
  (List.length (items d) <= maxlen d)%nat.

(** Events that append to the console but neither resize nor clear it. *)
Definition keeps_console (ev : Event) : Prop :=
  match ev with
  | MaxLinesChanged _ | ClearConsole => False
  | _ => True
  end.

(** The console deque after some calls, from the deque before them. *)
Definition console_follows (d0 : deque) (w : MainWindow) (tr : list Effect)
  : Prop :=
  console_deque w = deque_extend (appended tr) d0.

(** A file system that accepts every write and the close. *)
Definition reliable (env : Env) : Prop :=
  (forall d, write_raises env d = None) /\ close_raises env = None.

(** The chunks of a run that delivers payload only. *)
Definition deliver (env : Env) (chunks : list bytes) : list Event :=
  map (Notification env) chunks.

(** Bytes of an open transfer that have arrived so far: those written to
    the file and those waiting in the packet buffer. *)
Definition arrived (w : MainWindow) : Z :=
  FileReceiver.rx_bytes (file_receiver w) + packet_bytes_num w.

(** What was written and what is buffered, together, is what arrived. *)
Definition nothing_lost (w0 : MainWindow) (chunks : list bytes)
  (r : MainWindow * list Effect) : Prop :=
  concat (stored (snd r)) ++ packet_bytes (fst r)
  = packet_bytes w0 ++ concat chunks
  /\ FileReceiver.rx_bytes (file_receiver (fst r))
     = FileReceiver.rx_bytes (file_receiver w0) + len (concat (stored (snd r)))
  /\ sent (snd r) = repeat FIL_ACK (List.length (stored (snd r)))
  /\ Forall (fun p => len p = FILE_PACKET_SIZE) (stored (snd r)).

(** The calls the text branch can make. *)
Definition text_effect (e : Effect) : Prop :=
  match e with
  | FileOpen _ | ConsoleAppend _ => True
  | _ => False
  end.

(** The slots of the buttons, the spin box and the BLE worker's signals. *)
Definition ui_event (ev : Event) : Prop :=
  match ev with
  | Log _ | Connect _ _ _ _ | Disconnect _ | MaxLinesChanged _
  | ClearConsole => True
  | _ => False
  end.

(** Two windows with the same transfer: receiver, packet buffer and
    counter, watchdog and line buffer. *)
Definition same_transfer (w w' : MainWindow) : Prop :=
  file_receiver w' = file_receiver w
  /\ packet_bytes w' = packet_bytes w
  /\ packet_bytes_num w' = packet_bytes_num w
  /\ rx_watchdog w' = rx_watchdog w
  /\ last_line w' = last_line w.

(** Two windows with the same console text in progress, BLE worker, status
    and console capacity. *)
Definition same_surroundings (w w' : MainWindow) : Prop :=
  last_line w' = last_line w
  /\ ble w' = ble w
  /\ status w' = status w
  /\ maxlen (console_deque w') = maxlen (console_deque w).

(** Scans the calls of a run. [h] is the name of the file that is open, if
    any: a write or a close must name it, and after a close no file is
    open until the next opening. *)
Fixpoint file_use_ok (h : option str) (tr : list Effect) : bool :=
  match tr with
  | [] => true
  | FileOpen n :: tr' => file_use_ok (Some n) tr'
  | FileWrite n _ :: tr' =>
    match h with
    | Some m => str_eqb m n
    | None => false
    end && file_use_ok h tr'
  | FileClose n :: tr' =>
    match h with
    | Some m => str_eqb m n
    | None => false
    end && file_use_ok None tr'
  | _ :: tr' => file_use_ok h tr'
  end.

(** The file that is open after the calls [tr]. *)
Fixpoint open_after (h : option str) (tr : list Effect) : option str :=
  match tr with
  | [] => h
  | FileOpen n :: tr' => open_after (Some n) tr'
  | FileClose _ :: tr' => open_after None tr'
  | _ :: tr' => open_after h tr'
  end.

(** The receiver is Receiving exactly when it holds a file. *)
Definition receiving_iff_open (w : MainWindow) : Prop :=
  is_receiving w
  = match FileReceiver.file (file_receiver w) with
    | Some _ => true
    | None => false
    end.

(** The calls [tr], made from a moment when [h] was open, use files
    properly and leave open the file that the window [w] holds. *)
Definition files_in_step (h : option str) (w : MainWindow)
  (tr : list Effect) : Prop :=
  file_use_ok h tr = true
  /\ open_after h tr = FileReceiver.file (file_receiver w)
  /\ receiving_iff_open w.

(** The worker has a client that is connected. *)
Definition linked (w : MainWindow) : bool :=
  match client (ble w) with
  | Some c => is_connected c
  | None => false
  end.

(** What [send_command] logs when it cannot send. *)
Definition send_complaint (w : MainWindow) : str :=
  if linked w then lit "No TX characteristic configured" ++ [NL]
  else lit "Not connected: cannot send" ++ [NL].

(** A command with its final newline. *)
Definition terminated (text : str) : str :=
  if endswith [NL] text then text else text ++ [NL].

(** What the console receives from a line that the worker logs. *)
Definition logged (w : MainWindow) (line : str) : list str :=
  if is_receiving w then [] else [line].

(** What a [send_command] that only logs [line] comes to. *)
Definition only_logs (w : MainWindow) (line : str)
  (o : Out MainWindow (option GattWrite)) : Prop :=
  result o = Ok None
  /\ appended (calls o) = logged w line
  /\ opened (calls o) = [] /\ stored (calls o) = [] /\ sent (calls o) = []
  /\ same_transfer w (final o)
  /\ ble (final o) = ble w.

(** The UART service's characteristics, as the two UUID fields hold them
    at start. *)
Definition UART_RX_CHAR_UUID : str :=
  lit "6e400002-b5a3-f393-e0a9-e50e24dcca9e".
Definition UART_TX_CHAR_UUID : str :=
  lit "6e400003-b5a3-f393-e0a9-e50e24dcca9e".

(** A fresh window after a connection with both UUID fields as at start. *)
Definition connected_idle : MainWindow :=
  Eval vm_compute in
    final (on_connect_clicked calm (Some (lit "C0:FF:EE:00:00:01"))
             UART_RX_CHAR_UUID UART_TX_CHAR_UUID __init__).

(** A file name that is a single path component: it has no slash. *)
Definition single_component (name : str) : Prop := ~ In SLASH name.

(** The value of the decimal digits [d] read after a number [acc]. *)
Fixpoint uval (d : Decimal.uint) (acc : Z) : Z :=
  match d with
  | Decimal.Nil => acc
  | Decimal.D0 l => uval l (10 * acc + 0)
  | Decimal.D1 l => uval l (10 * acc + 1)
  | Decimal.D2 l => uval l (10 * acc + 2)
  | Decimal.D3 l => uval l (10 * acc + 3)
  | Decimal.D4 l => uval l (10 * acc + 4)
  | Decimal.D5 l => uval l (10 * acc + 5)
  | Decimal.D6 l => uval l (10 * acc + 6)
  | Decimal.D7 l => uval l (10 * acc + 7)
  | Decimal.D8 l => uval l (10 * acc + 8)
  | Decimal.D9 l => uval l (10 * acc + 9)
  end.

(** The characters of a number written by [str]: digits and the sign. *)
Definition number_char (c : N) : Prop := (45 <= c <= 57)%N.

(** The line of a directive, as the device writes it after any text
    [pre]. *)
Definition directive_line (pre name : str) (size : Z) : str :=
  pre ++ MARKER ++ lit " " ++ name ++ [COMMA] ++ str_of_int size ++ [NL].

(** The two commands of the transfer protocol. *)
Definition ack_or_nack (command : str) : Prop :=
  command = FIL_ACK \/ command = FIL_NACK.

(** * Properties *)

Arguments lit : simpl never.
Arguments str_of_int : simpl never.
Arguments decode : simpl never.
Arguments splitlines : simpl never.

(** Unfolds a slot down to the monad's operations. *)
Ltac unfold_monad :=
  unfold when, call_env, on_receiver, zoom, console_append,
    _refresh_console_widget, bind, ret, raise, lift, try_except, get, modify,
    call.

Ltac unfold_slots :=
  unfold _handle_notification, receive_chunk, on_rx_timeout, _append_console,
    FileReceiver.handle_data, FileReceiver.stop_receiving, is_receiving.

(** Splits on the innermost test the goal is stuck on. *)
Ltac split_path :=
  match goal with
  | |- context [match ?x with _ => _ end] =>
    lazymatch x with
    | context [match _ with _ => _ end] => fail
    | _ => destruct x eqn:?
    end
  end.

Ltac all_paths := cbn; repeat (split_path; cbn in *; try discriminate).

(** ** C1: a complete packet is acknowledged, stored and cleared *)

(** C1, as stated for every chunk, fails when the file cannot be closed:
    the last packet of a 1024-byte transfer is acknowledged and written and
    the bytes received reach the declared size, but the slot stops at the
    failing close, so the packet buffer and its counter are not cleared,
    the window stays Receiving, the watchdog is not restarted and the
    console gets an error diagnostic instead of the completion notice. *)
Lemma flush_with_failing_close_cex :
  let o := _handle_notification close_fails (repeat x00 1024) calib_1024 in
  let w' := final o in
  sent (calls o) = [FIL_ACK]
  /\ stored (calls o) = [repeat x00 1024]
  /\ FileReceiver.rx_bytes (file_receiver w') = 1024
  /\ FileReceiver.file_size (file_receiver w') = 1024
  /\ is_receiving w' = true
  /\ packet_bytes w' = repeat x00 1024
  /\ packet_bytes_num w' = 1024
  /\ rx_watchdog w' = rx_watchdog calib_1024
  /\ appended (calls o)
     = [error_diagnostic
          (EnvError (lit "[Errno 28] No space left on device"))]
  /\ ~ flushes close_fails (repeat x00 1024) calib_1024.
Proof.
  cbv zeta. repeat split; try (vm_compute; reflexivity).
  intros H. destruct H as (_ & _ & _ & H & _).
  vm_compute in H. discriminate H.
Qed.

(** C1, amended. Provided the file system accepts the write and the
    close: while Receiving, a chunk that brings the packet byte count to
    exactly [FILE_PACKET_SIZE], or the running total to the declared size,
    makes the slot send exactly one FIL:ACK, write the packet buffer to the
    file once, clear the buffer and the count and restart the watchdog;
    when the bytes received then reach the declared size the receiver goes
    back to Idle and the completion notice is appended to the console. *)
Theorem packet_complete_flush :
  forall (env : Env) (data : bytes) (w : MainWindow) (f : str),
    is_receiving w = true ->
    FileReceiver.file (file_receiver w) = Some f ->
    write_raises env (packet_bytes w ++ data) = None ->
    close_raises env = None ->
    packet_bytes_num w + len data = FILE_PACKET_SIZE
    \/ FileReceiver.rx_bytes (file_receiver w) + (packet_bytes_num w + len data)
       >= FileReceiver.file_size (file_receiver w) ->
    flushes env data w.
Proof.
  intros env data w f Hrecv Hfile Hwrite Hclose Hcond. unfold flushes.
  destruct w as [ll cv stt bl [rc fl rx hd fs] num buf wd cd].
  unfold is_receiving in Hrecv. cbn in Hrecv, Hfile, Hwrite, Hcond.
  subst rc fl.
  assert (Hb : (num + len data =? FILE_PACKET_SIZE)
               || (rx + (num + len data) >=? fs) = true).
  { apply orb_true_iff. destruct Hcond as [H | H].
    - left. apply Z.eqb_eq. exact H.
    - right. apply Z.geb_le. lia. }
  unfold_slots. unfold_monad. cbn.
  rewrite Hb. cbn. rewrite Hwrite. cbn.
  destruct (rx + len (buf ++ data) >=? fs) eqn:Hdone; cbn.
  - rewrite Hclose. cbn. apply Z.geb_le in Hdone.
    repeat split; try reflexivity; lia.
  - rewrite Z.geb_leb in Hdone. apply Z.leb_gt in Hdone.
    repeat split; try reflexivity; lia.
Qed.

Lemma packet_complete_flush_witness :
  flushes calm (repeat x00 1024) calib_2048.
Proof.
  apply packet_complete_flush with (f := lit "calib.bin").
  - reflexivity.
  - reflexivity.
  - reflexivity.
  - reflexivity.
  - left. reflexivity.
Defined.

(** ** Invariants of the window *)

Arguments endswith : simpl never.
Arguments contains : simpl never.
Arguments strip : simpl never.
Arguments int : simpl never.
Arguments path_name : simpl never.
Arguments parse_directive : simpl never.

Ltac unfold_all :=
  unfold dispatch, tick, on_disconnect_clicked, connect, disconnect, log_emit,
    connected_emit, on_ble_connected, set_status, on_max_lines_changed,
    on_clear_console, _handle_notification, receive_chunk, receive_text,
    handle_line, on_rx_timeout, _append_console,
    FileReceiver.start_receiving, FileReceiver.handle_data,
    FileReceiver.stop_receiving, is_receiving;
  unfold_monad.

Lemma same_packet_refl w : same_packet w w.
Proof. repeat split. Qed.

Lemma same_packet_trans w1 w2 w3 :
  same_packet w1 w2 -> same_packet w2 w3 -> same_packet w1 w3.
Proof.
  unfold same_packet. intros (A & B & C) (D & E & F).
  repeat split; congruence.
Qed.

Lemma handle_line_same_packet env line w :
  same_packet w (final (handle_line env line w)).
Proof.
  destruct w as [ll cv stt bl [rc fl rx hd fs] num buf wd cd].
  unfold_all. all_paths; repeat split.
Qed.

(** A relation that every round of a loop respects is respected by the
    loop, whether or not a round raises. *)
Lemma for_each_respects {S A} (R : S -> S -> Prop) (body : A -> M S unit) :
  (forall s, R s s) ->
  (forall s1 s2 s3, R s1 s2 -> R s2 s3 -> R s1 s3) ->
  (forall x s, R s (final (body x s))) ->
  forall xs s, R s (final (for_each xs body s)).
Proof.
  intros Hrefl Htrans Hbody xs.
  induction xs as [| x xs IH]; intros s; cbn.
  - apply Hrefl.
  - unfold bind. specialize (Hbody x s).
    destruct (body x s) as [[[] | e] s1 c1]; cbn in *.
    + specialize (IH s1).
      destruct (for_each xs body s1) as [r s2 c2]; cbn in *.
      eapply Htrans; eauto.
    + exact Hbody.
Qed.

Lemma receive_text_same_packet env data w :
  same_packet w (final (receive_text env data w)).
Proof.
  unfold receive_text, when, _refresh_console_widget, bind, get, modify.
  cbn.
  destruct (contains [NL] (last_line w ++ decode data)); cbn.
  - pose proof (for_each_respects same_packet (handle_line env)
                  same_packet_refl same_packet_trans
                  (handle_line_same_packet env)
                  (splitlines (last_line w ++ decode data))
                  (set_last_line (last_line w ++ decode data) w)) as H.
    destruct (for_each _ _ _) as [[[] | e] s1 c1]; cbn in *.
    + destruct (endswith [NL] (last_line s1)); cbn;
        destruct H as (A & B & C); repeat split; assumption.
    + exact H.
  - repeat split.
Qed.

Lemma dispatch_consistent ev w :
  consistent w -> consistent (final (dispatch ev w)).
Proof.
  unfold consistent. intros H.
  destruct ev as [env data | | | text | env addr urx utx | env | val |].
  - cbn [dispatch]. unfold _handle_notification, bind, get.
    cbn [result final calls].
    destruct (is_receiving w) eqn:Hr.
    + destruct w as [ll cv stt bl [rc fl rx hd fs] num buf wd cd].
      cbn in H. subst num. unfold_all.
      all_paths; try reflexivity;
        unfold len; rewrite ?length_app; lia.
    + destruct (receive_text_same_packet env data w) as (A & B & _).
      destruct (receive_text env data w) as [r s1 c1]. cbn in *.
      congruence.
  - destruct w as [ll cv stt bl [rc fl rx hd fs] num buf wd cd].
    cbn in H. unfold_all. all_paths; try reflexivity; exact H.
  - destruct w as [ll cv stt bl [rc fl rx hd fs] num buf [iv ac el] cd].
    cbn in H. unfold_all. all_paths; try reflexivity; exact H.
  - destruct w as [ll cv stt bl [rc fl rx hd fs] num buf wd cd].
    cbn in H. unfold_all. all_paths; try reflexivity; exact H.
  - destruct w as [ll cv stt [cl ca ru tu] [rc fl rx hd fs] num buf wd cd].
    cbn in H. unfold_all. all_paths; try reflexivity; exact H.
  - destruct w as [ll cv stt [cl ca ru tu] [rc fl rx hd fs] num buf wd cd].
    cbn in H. unfold_all. all_paths; try reflexivity; exact H.
  - destruct w as [ll cv stt bl [rc fl rx hd fs] num buf wd cd].
    cbn in H. unfold_all. all_paths; try reflexivity; exact H.
  - destruct w as [ll cv stt bl [rc fl rx hd fs] num buf wd cd].
    cbn in H. unfold_all. all_paths; try reflexivity; exact H.
Qed.


(** A property kept by every slot holds along every run. *)
Lemma run_keeps (P : MainWindow -> Prop) :
  (forall ev w, P w -> P (final (dispatch ev w))) ->
  forall evs w, P w -> P (fst (run evs w)).
Proof.
  intros Hstep evs.
  induction evs as [| ev evs IH]; intros w Hw; cbn.
  - exact Hw.
  - specialize (Hstep ev w Hw).
    destruct (dispatch ev w) as [r w1 c1]. cbn in Hstep.
    specialize (IH w1 Hstep).
    destruct (run evs w1) as [w2 c2]. exact IH.
Qed.

(** ** C10: the packet counter is the length of the packet buffer *)

(** C10. [packet_bytes_num] equals the length of [packet_bytes] after
    initialization, every slot (a chunk in either mode, with or without a
    flush, with or without a failing file system, a watchdog timeout, and
    the others) keeps it so, and therefore it holds after every sequence of
    events. *)
Theorem counter_mirrors_buffer :
  consistent __init__
  /\ (forall ev w, consistent w -> consistent (final (dispatch ev w)))
  /\ (forall evs, consistent (fst (run evs __init__))).
Proof.
  split; [reflexivity |]. split.
  - intros ev w. apply dispatch_consistent.
  - intros evs. apply run_keeps.
    + intros ev w. apply dispatch_consistent.
    + reflexivity.
Qed.

(** A chunk that stays short of a packet, in an open transfer. *)
Lemma counter_mirrors_buffer_witness :
  consistent (final (dispatch (Notification calm [x01; x02; x03]) calib_2048)).
Proof.
  apply (proj1 (proj2 counter_mirrors_buffer)).
  reflexivity.
Defined.

(** ** C2: a directive line whose size field is malformed *)

(** C2. On a fresh window the chunk "Sending file: badsize" + newline makes
    the slot raise [ValueError] out of the unpacking of
    [payload.split(",", 1)]: nothing is appended to the console, no transfer
    is opened, and the line stays in [last_line], so that the slot raises
    again on every later chunk, whatever it carries, without ever
    appending anything. *)
Theorem malformed_directive_raises :
  let o := _handle_notification calm bad_directive __init__ in
  result o = Raise ValueError_unpack
  /\ appended (calls o) = []
  /\ items (console_deque (final o)) = []
  /\ is_receiving (final o) = false
  /\ last_line (final o) = decode bad_directive
  /\ (forall env data,
        let o' := _handle_notification env data (final o) in
        result o' = Raise ValueError_unpack
        /\ appended (calls o') = []
        /\ is_receiving (final o') = false).
Proof.
  cbv zeta.
  split; [vm_compute; reflexivity |].
  split; [vm_compute; reflexivity |].
  split; [vm_compute; reflexivity |].
  split; [vm_compute; reflexivity |].
  split; [vm_compute; reflexivity |].
  intros env data.
  set (w := final (_handle_notification calm bad_directive __init__)).
  vm_compute in w. subst w.
  unfold _handle_notification, receive_text, bind, get, modify.
  cbn [result final calls is_receiving file_receiver FileReceiver.receiving
       last_line set_last_line console_view status ble packet_bytes_num
       packet_bytes rx_watchdog console_deque].
  destruct (decode data) as [| c t]; vm_compute; auto.
Qed.

(** ** C5: the Disconnect button *)

(** C5, as stated, fails: after Disconnect on a window that is Receiving
    the transfer is still open, the ten buffered bytes are still there and
    the watchdog is still running. *)
Lemma disconnect_abandons_transfer_cex :
  is_receiving connected_receiving = true
  /\ let w' := final (dispatch (Disconnect calm) connected_receiving) in
     is_receiving w' = true
     /\ packet_bytes_num w' = 10
     /\ active (rx_watchdog w') = true.
Proof. vm_compute. repeat split. Qed.

(** C5, amended. Disconnect drops the BLE client and nothing else: the
    receiver (mode, file, byte counts), the packet buffer and its counter
    and the watchdog are as before, whether or not the BLE stack raises;
    a second Disconnect changes nothing at all and calls nobody. *)
Theorem disconnect_keeps_transfer_idempotent :
  forall (env1 env2 : Env) (w : MainWindow),
    let w1 := final (on_disconnect_clicked env1 w) in
    file_receiver w1 = file_receiver w
    /\ packet_bytes w1 = packet_bytes w
    /\ packet_bytes_num w1 = packet_bytes_num w
    /\ rx_watchdog w1 = rx_watchdog w
    /\ client (ble w1) = None
    /\ final (on_disconnect_clicked env2 w1) = w1
    /\ calls (on_disconnect_clicked env2 w1) = []
    /\ result (on_disconnect_clicked env2 w1) = Ok tt.
Proof.
  intros env1 env2 w.
  destruct w as [ll cv stt [cl ca ru tu] [rc fl rx hd fs] num buf wd cd].
  unfold_all.
  destruct cl as [c |]; [| cbn; repeat split].
  destruct rc; destruct (disconnect_raises env1); cbn; repeat split.
Qed.

(** ** C6: what reaches the console while a transfer is open *)

(** C6, as stated, fails: a watchdog timeout in an open transfer appends
    the timeout diagnostic, which is neither the "started" nor the
    "completed" notice. *)
Lemma console_suppression_cex :
  is_receiving calib_2048 = true
  /\ appended (calls (dispatch RxTimeout calib_2048)) = [timeout_diagnostic]
  /\ timeout_diagnostic <> complete_notice
  /\ (forall filename filesize,
        timeout_diagnostic <> started_notice filename filesize).
Proof.
  split; [reflexivity |]. split; [reflexivity |]. split.
  - intros H. vm_compute in H. discriminate H.
  - intros filename filesize H.
    unfold timeout_diagnostic, started_notice in H.
    cbv [lit String.list_byte_of_string map app] in H.
    cbn in H. discriminate H.
Qed.

(** C6, amended. While Receiving, text sent through [_append_console] (the
    BLE worker's log) is dropped, and whatever event is handled, the only
    lines appended to the console are the overrun diagnostic, the timeout
    diagnostic, the file-receive-error diagnostic and the completion
    notice. *)
Theorem only_diagnostics_while_receiving :
  forall w : MainWindow,
    is_receiving w = true ->
    (forall text,
        appended (calls (_append_console text w)) = []
        /\ console_deque (final (_append_console text w)) = console_deque w)
    /\ (forall ev l,
          In l (appended (calls (dispatch ev w))) -> receiving_diagnostic l).
Proof.
  intros w Hr. split.
  - intros text. unfold _append_console, when, bind, get.
    cbn [result final calls]. rewrite Hr. cbn. split; reflexivity.
  - intros ev l.
    unfold receiving_diagnostic.
    destruct ev as [env data | | | text | env addr urx utx | env | val |];
      cbn [dispatch].
    + unfold _handle_notification, bind, get. cbn [result final calls].
      rewrite Hr.
      destruct w as [ll cv stt bl [rc fl rx hd fs] num buf wd cd].
      unfold is_receiving in Hr. cbn in Hr. subst rc.
      unfold_all. all_paths; intros H; cbn in H; intuition eauto.
    + destruct w as [ll cv stt bl [rc fl rx hd fs] num buf wd cd].
      unfold is_receiving in Hr. cbn in Hr. subst rc.
      unfold_all. all_paths; intros H; cbn in H; intuition eauto.
    + destruct w as [ll cv stt bl [rc fl rx hd fs] num buf [iv ac el] cd].
      unfold is_receiving in Hr. cbn in Hr. subst rc.
      unfold_all. all_paths; intros H; cbn in H; intuition eauto.
    + destruct w as [ll cv stt bl [rc fl rx hd fs] num buf wd cd].
      unfold is_receiving in Hr. cbn in Hr. subst rc.
      unfold_all. all_paths; intros H; cbn in H; intuition eauto.
    + destruct w as [ll cv stt [cl ca ru tu] [rc fl rx hd fs] num buf wd cd].
      unfold is_receiving in Hr. cbn in Hr. subst rc.
      unfold_all. all_paths; intros H; cbn in H; intuition eauto.
    + destruct w as [ll cv stt [cl ca ru tu] [rc fl rx hd fs] num buf wd cd].
      unfold is_receiving in Hr. cbn in Hr. subst rc.
      unfold_all. all_paths; intros H; cbn in H; intuition eauto.
    + destruct w as [ll cv stt bl [rc fl rx hd fs] num buf wd cd].
      unfold_all. all_paths; intros H; cbn in H; intuition eauto.
    + destruct w as [ll cv stt bl [rc fl rx hd fs] num buf wd cd].
      unfold_all. all_paths; intros H; cbn in H; intuition eauto.
Qed.

(** A 1030-byte chunk at the start of a 2048-byte transfer overruns the
    packet. *)
Lemma only_diagnostics_while_receiving_witness :
  receiving_diagnostic overrun_diagnostic.
Proof.
  apply (proj2 (only_diagnostics_while_receiving calib_2048 eq_refl)
               (Notification calm (repeat x00 1030)) overrun_diagnostic).
  vm_compute. left. reflexivity.
Defined.

(** ** C8: the write of a completed packet fails *)

(** C8, as stated, fails: when the write of the first packet of a
    2048-byte transfer fails, the error is logged but the transfer stays
    open, and the next chunk is acknowledged as well; nothing was stored. *)
Lemma store_failure_aborts_cex :
  let r := run [Notification disk_full (repeat x00 1024);
                Notification disk_full (repeat x00 1024)] calib_2048 in
  is_receiving (fst r) = true
  /\ sent (snd r) = [FIL_ACK; FIL_ACK]
  /\ stored (snd r) = []
  /\ appended (snd r)
     = [error_diagnostic (EnvError (lit "No space left on device"));
        error_diagnostic (EnvError (lit "No space left on device"))].
Proof. vm_compute. repeat split. Qed.

(** C8, amended. When the write of a completed packet raises, the slot
    catches the error and appends "File receive error: ..." to the console
    and shows it; the transfer is not aborted: the receiver is unchanged
    (still Receiving, same file, same bytes received), the FIL:ACK for the
    packet has been issued before the write, and the unsaved bytes stay in
    the packet buffer. *)
Theorem store_failure_is_logged :
  forall (env : Env) (data : bytes) (msg : str) (w : MainWindow) (f : str),
    is_receiving w = true ->
    FileReceiver.file (file_receiver w) = Some f ->
    write_raises env (packet_bytes w ++ data) = Some msg ->
    packet_bytes_num w + len data = FILE_PACKET_SIZE
    \/ FileReceiver.rx_bytes (file_receiver w) + (packet_bytes_num w + len data)
       >= FileReceiver.file_size (file_receiver w) ->
    fails_to_store env data msg w.
Proof.
  intros env data msg w f Hrecv Hfile Hwrite Hcond. unfold fails_to_store.
  destruct w as [ll cv stt bl [rc fl rx hd fs] num buf wd cd].
  unfold is_receiving in Hrecv. cbn in Hrecv, Hfile, Hwrite, Hcond.
  subst rc fl.
  assert (Hb : (num + len data =? FILE_PACKET_SIZE)
               || (rx + (num + len data) >=? fs) = true).
  { apply orb_true_iff. destruct Hcond as [H | H].
    - left. apply Z.eqb_eq. exact H.
    - right. apply Z.geb_le. lia. }
  unfold_slots. unfold_monad. cbn.
  rewrite Hb. cbn. rewrite Hwrite. cbn.
  repeat split; reflexivity.
Qed.

Lemma store_failure_is_logged_witness :
  fails_to_store disk_full (repeat x00 1024) (lit "No space left on device")
                 calib_2048.
Proof.
  apply store_failure_is_logged with (f := lit "calib.bin").
  - reflexivity.
  - reflexivity.
  - reflexivity.
  - left. reflexivity.
Defined.

(** ** C9: the watchdog *)

(** C9, as stated, fails: the watchdog is started once and then left alone
    for 400 ms; it expires twice, and two FIL:NACK are sent. *)
Lemma watchdog_fires_once_cex :
  is_receiving calib_2048_started = true
  /\ rx_watchdog calib_2048_started = mkTimer 200 true 0
  /\ sent (snd (run (repeat Tick 400) calib_2048_started))
     = [FIL_NACK; FIL_NACK].
Proof. vm_compute. repeat split. Qed.

Lemma run_app evs1 evs2 w :
  run (evs1 ++ evs2) w
  = (fst (run evs2 (fst (run evs1 w))),
     snd (run evs1 w) ++ snd (run evs2 (fst (run evs1 w)))).
Proof.
  revert w. induction evs1 as [| ev evs1 IH]; intros w; cbn.
  - destruct (run evs2 w). reflexivity.
  - destruct (dispatch ev w) as [r w1 c1].
    rewrite IH.
    destruct (run evs1 w1) as [w2 c2]. cbn.
    rewrite app_assoc. reflexivity.
Qed.

Lemma sent_app a b : sent (a ++ b) = sent a ++ sent b.
Proof. unfold sent. apply flat_map_app. Qed.

(** While the interval has not elapsed, milliseconds only advance the
    timer. *)
Lemma ticks_before_expiry (n : nat) (w : MainWindow) :
  active (rx_watchdog w) = true ->
  elapsed (rx_watchdog w) + Z.of_nat n < interval (rx_watchdog w) ->
  run (repeat Tick n) w
  = (set_rx_watchdog
       (mkTimer (interval (rx_watchdog w)) true
                (elapsed (rx_watchdog w) + Z.of_nat n)) w, []).
Proof.
  revert w. induction n as [| n IH]; intros w Ha Hlt.
  - cbn. destruct w as [ll cv stt bl fr num buf [iv ac el] cd].
    cbn in *. subst ac. rewrite Z.add_0_r. reflexivity.
  - rewrite Nat2Z.inj_succ in *. cbn [repeat run dispatch].
    destruct w as [ll cv stt bl fr num buf [iv ac el] cd].
    cbn [rx_watchdog active elapsed interval] in Ha, Hlt |- *. subst ac.
    unfold tick, bind, get, modify.
    cbn [result final calls rx_watchdog active elapsed interval].
    assert (Hno : (el + 1 >=? iv) = false).
    { rewrite Z.geb_leb. apply Z.leb_gt. lia. }
    rewrite Hno.
    cbn [result final calls set_rx_watchdog last_line console_view status ble
         file_receiver packet_bytes_num packet_bytes rx_watchdog console_deque].
    rewrite IH;
      cbn [set_rx_watchdog last_line console_view status ble file_receiver
           packet_bytes_num packet_bytes rx_watchdog console_deque
           active elapsed interval app];
      [| reflexivity | lia].
    replace (el + 1 + Z.of_nat n) with (el + Z.succ (Z.of_nat n)) by lia.
    reflexivity.
Qed.

(** The millisecond on which the interval elapses runs [on_rx_timeout] and
    the timer starts over. *)
Lemma tick_expiry (w : MainWindow) :
  active (rx_watchdog w) = true ->
  elapsed (rx_watchdog w) + 1 >= interval (rx_watchdog w) ->
  tick w
  = on_rx_timeout
      (set_rx_watchdog (mkTimer (interval (rx_watchdog w)) true 0) w).
Proof.
  intros Ha Hge.
  destruct w as [ll cv stt bl fr num buf [iv ac el] cd].
  cbn in Ha, Hge. subst ac.
  unfold tick, bind, get, modify.
  cbn [result final calls rx_watchdog active elapsed interval].
  assert (Hyes : (el + 1 >=? iv) = true) by (apply Z.geb_le; lia).
  rewrite Hyes.
  cbn [result final calls set_rx_watchdog last_line console_view status ble
       file_receiver packet_bytes_num packet_bytes rx_watchdog console_deque].
  match goal with
  | |- context [on_rx_timeout ?x] => destruct (on_rx_timeout x) as [r s c]
  end.
  reflexivity.
Qed.

(** One full interval of an open transfer without any chunk. *)
Lemma one_period (w : MainWindow) :
  is_receiving w = true ->
  rx_watchdog w = mkTimer 200 true 0 ->
  let r := run (repeat Tick 200) w in
  is_receiving (fst r) = true
  /\ rx_watchdog (fst r) = mkTimer 200 true 0
  /\ sent (snd r) = [FIL_NACK].
Proof.
  intros Hr Hw.
  change 200%nat with (199 + 1)%nat. rewrite repeat_app, run_app.
  rewrite (ticks_before_expiry 199 w) by (rewrite Hw; cbn; lia || reflexivity).
  cbn [fst snd]. rewrite Hw. cbn [repeat run dispatch interval elapsed].
  rewrite tick_expiry by (cbn; lia || reflexivity).
  destruct w as [ll cv stt bl [rc fl rx hd fs] num buf wd cd].
  unfold is_receiving in Hr. cbn in Hr, Hw. subst rc wd.
  unfold_all. cbn. repeat split.
Qed.

Lemma periods (k : nat) (w : MainWindow) :
  is_receiving w = true ->
  rx_watchdog w = mkTimer 200 true 0 ->
  sent (snd (run (repeat Tick (k * 200)) w)) = repeat FIL_NACK k.
Proof.
  revert w. induction k as [| k IH]; intros w Hr Hw.
  - reflexivity.
  - replace (S k * 200)%nat with (200 + k * 200)%nat by lia.
    rewrite repeat_app, run_app. cbn [snd].
    destruct (one_period w Hr Hw) as (A & B & C).
    rewrite sent_app, C, (IH _ A B). reflexivity.
Qed.

Lemma watchdog_stays_active ev w :
  active (rx_watchdog w) = true ->
  active (rx_watchdog (final (dispatch ev w))) = true.
Proof.
  intros H.
  destruct ev as [env data | | | text | env addr urx utx | env | val |].
  - cbn [dispatch]. unfold _handle_notification, bind, get.
    cbn [result final calls].
    destruct (is_receiving w) eqn:Hr.
    + destruct w as [ll cv stt bl [rc fl rx hd fs] num buf [iv ac el] cd].
      cbn in H. unfold_all. all_paths; solve [reflexivity | exact H].
    + destruct (receive_text_same_packet env data w) as (_ & _ & C).
      destruct (receive_text env data w) as [r s1 c1]. cbn in *.
      rewrite C. exact H.
  - destruct w as [ll cv stt bl [rc fl rx hd fs] num buf wd cd].
    cbn in H. unfold_all. all_paths; solve [reflexivity | exact H].
  - destruct w as [ll cv stt bl [rc fl rx hd fs] num buf [iv ac el] cd].
    cbn in H. unfold_all. all_paths; solve [reflexivity | exact H].
  - destruct w as [ll cv stt bl [rc fl rx hd fs] num buf wd cd].
    cbn in H. unfold_all. all_paths; solve [reflexivity | exact H].
  - destruct w as [ll cv stt [cl ca ru tu] [rc fl rx hd fs] num buf wd cd].
    cbn in H. unfold_all. all_paths; solve [reflexivity | exact H].
  - destruct w as [ll cv stt [cl ca ru tu] [rc fl rx hd fs] num buf wd cd].
    cbn in H. unfold_all. all_paths; solve [reflexivity | exact H].
  - destruct w as [ll cv stt bl [rc fl rx hd fs] num buf wd cd].
    cbn in H. unfold_all. all_paths; solve [reflexivity | exact H].
  - destruct w as [ll cv stt bl [rc fl rx hd fs] num buf wd cd].
    cbn in H. unfold_all. all_paths; solve [reflexivity | exact H].
Qed.

(** C9, amended. The watchdog is a repeating timer that nothing stops.
    - Each expiry while Receiving sends exactly one FIL:NACK, clears the
      packet buffer and its counter, appends the timeout diagnostic and
      leaves the transfer open.
    - An expiry while Idle does nothing, and neither does a millisecond of
      a timer that is not running.
    - Every chunk handled while Receiving restarts the timer, whether or
      not a packet completes, unless the file system raises.
    - Once running the timer stays running through every event.
    - Left alone in an open transfer it expires every 200 ms: [k] periods
      send [k] FIL:NACK. *)
Theorem watchdog_is_periodic :
  (forall w, is_receiving w = true -> nacks w)
  /\ (forall w, is_receiving w = false ->
                on_rx_timeout w = mkOut (Ok tt) w [])
  /\ (forall w, active (rx_watchdog w) = false -> tick w = mkOut (Ok tt) w [])
  /\ (forall env data w,
        is_receiving w = true ->
        write_raises env (packet_bytes w ++ data) = None ->
        close_raises env = None ->
        rx_watchdog (final (_handle_notification env data w))
        = QTimer_start (rx_watchdog w))
  /\ (forall ev w,
        active (rx_watchdog w) = true ->
        active (rx_watchdog (final (dispatch ev w))) = true)
  /\ (forall k w,
        is_receiving w = true ->
        rx_watchdog w = mkTimer 200 true 0 ->
        sent (snd (run (repeat Tick (k * 200)) w)) = repeat FIL_NACK k).
Proof.
  split; [| split; [| split; [| split; [| split]]]].
  - intros w Hr. unfold nacks.
    destruct w as [ll cv stt bl [rc fl rx hd fs] num buf wd cd].
    unfold is_receiving in Hr. cbn in Hr. subst rc.
    unfold_all. cbn. repeat split.
  - intros w Hr. unfold on_rx_timeout, when, bind, get.
    cbn [result final calls]. rewrite Hr. reflexivity.
  - intros w Ha. unfold tick, bind, get.
    cbn [result final calls]. rewrite Ha. reflexivity.
  - intros env data w Hr Hw Hc.
    destruct w as [ll cv stt bl [rc fl rx hd fs] num buf wd cd].
    unfold is_receiving in Hr. cbn in Hr, Hw. subst rc.
    unfold_all. cbn. rewrite Hc.
    all_paths; try reflexivity; congruence.
  - apply watchdog_stays_active.
  - apply periods.
Qed.

(** Three periods of silence in an open transfer. *)
Lemma watchdog_is_periodic_witness :
  sent (snd (run (repeat Tick (3 * 200)) calib_2048_started))
  = repeat FIL_NACK 3.
Proof.
  apply (proj2 (proj2 (proj2 (proj2 (proj2 watchdog_is_periodic))))).
  - reflexivity.
  - reflexivity.
Defined.

(** ** C4: the transition from Idle to Receiving *)






Lemma endswith_contains_NL (s : str) :
  endswith [NL] s = true -> contains [NL] s = true.
Proof.
  unfold endswith. intros H.
  assert (Hs : exists x, s = x ++ [NL]).
  { destruct (rev s) as [| c r] eqn:Hrev; [discriminate H |].
    cbn [rev app startswith] in H.
    apply andb_true_iff in H. destruct H as [H _].
    apply N.eqb_eq in H. subst c.
    exists (rev r). rewrite <- (rev_involutive s), Hrev. reflexivity. }
  destruct Hs as [x ->]. clear H.
  induction x as [| c x IH].
  - reflexivity.
  - cbn [app].
    change (contains [NL] (c :: x ++ [NL]))
      with (startswith [NL] (c :: x ++ [NL]) || contains [NL] (x ++ [NL])).
    rewrite IH. apply orb_true_r.
Qed.



(** ** C3: packet boundaries *)

(** C3, as stated, fails: a 1500-byte transfer delivered as one chunk is
    stored by a single write of 1500 bytes and acknowledged once. *)
Lemma single_chunk_1500_cex :
  let r := run [Notification calm (announce "1500");
                Notification calm (repeat x00 1500)] __init__ in
  map (@List.length byte) (stored (snd r)) = [1500%nat]
  /\ map (@List.length byte) (stored (snd r)) <> [1024%nat; 476%nat]
  /\ sent (snd r) = [FIL_ACK]
  /\ is_receiving (fst r) = false.
Proof.
  vm_compute. repeat split. intros H. discriminate H.
Qed.

Lemma boundaries_ok_app prev a b :
  boundaries_ok prev (a ++ b)
  = boundaries_ok prev a && boundaries_ok (last_written prev a) b.
Proof.
  revert prev. induction a as [| e a IH]; intros prev; cbn.
  - reflexivity.
  - destruct e; cbn; rewrite ?IH, ?andb_assoc; reflexivity.
Qed.

Lemma last_written_app prev a b :
  last_written prev (a ++ b) = last_written (last_written prev a) b.
Proof.
  revert prev. induction a as [| e a IH]; intros prev; cbn.
  - reflexivity.
  - destruct e; cbn; rewrite ?IH; reflexivity.
Qed.

Lemma stored_app a b : stored (a ++ b) = stored a ++ stored b.
Proof. unfold stored. apply flat_map_app. Qed.

Lemma opened_app a b : opened (a ++ b) = opened a ++ opened b.
Proof. unfold opened. apply flat_map_app. Qed.

Lemma no_write_boundaries prev tr :
  stored tr = [] -> boundaries_ok prev tr = true.
Proof.
  revert prev. induction tr as [| e tr IH]; intros prev H; cbn.
  - reflexivity.
  - destruct e; cbn in H; try discriminate H; apply IH; exact H.
Qed.

Lemma no_write_last_written prev tr :
  stored tr = [] ->
  last_written prev tr = match opened tr with [] => prev | _ => None end.
Proof.
  revert prev. induction tr as [| e tr IH]; intros prev H; cbn.
  - reflexivity.
  - destruct e; cbn in H; try discriminate H; rewrite (IH _ H);
      cbn; try reflexivity.
    destruct (opened tr); reflexivity.
Qed.

(** A loop invariant that also sees the calls made so far. *)
Lemma for_each_calls {S A} (I : S -> list Effect -> Prop)
  (body : A -> M S unit) :
  (forall x s tr, I s tr -> I (final (body x s)) (tr ++ calls (body x s))) ->
  forall xs s tr,
    I s tr -> I (final (for_each xs body s)) (tr ++ calls (for_each xs body s)).
Proof.
  intros Hbody xs.
  induction xs as [| x xs IH]; intros s tr H; cbn.
  - rewrite app_nil_r. exact H.
  - unfold bind. specialize (Hbody x s tr H).
    destruct (body x s) as [[[] | e] s1 c1]; cbn in *.
    + specialize (IH s1 _ Hbody).
      destruct (for_each xs body s1) as [r s2 c2]; cbn in *.
      rewrite app_assoc. exact IH.
    + exact Hbody.
Qed.

Lemma handle_line_text_calls env line w tr :
  text_calls w tr ->
  text_calls (final (handle_line env line w)) (tr ++ calls (handle_line env line w)).
Proof.
  unfold text_calls. rewrite stored_app, opened_app.
  intros [Hs Ho]. rewrite Hs.
  destruct w as [ll cv stt bl [rc fl rx hd fs] num buf wd cd].
  unfold is_receiving in *. cbn in Ho.
  unfold_all. all_paths; (split; [reflexivity |]); intros Hr;
    try (specialize (Ho Hr));
    try (intros Habs; apply app_eq_nil in Habs; destruct Habs as [Ha Hb];
         solve [auto | discriminate Hb]).
Qed.

Lemma receive_text_calls env data w :
  is_receiving w = false ->
  text_calls (final (receive_text env data w)) (calls (receive_text env data w)).
Proof.
  intros Hr.
  unfold receive_text, when, _refresh_console_widget, bind, get, modify.
  cbn.
  destruct (contains [NL] (last_line w ++ decode data)); cbn.
  - assert (H0 : text_calls (set_last_line (last_line w ++ decode data) w) []).
    { split; [reflexivity |]. unfold is_receiving in *. cbn.
      rewrite Hr. discriminate. }
    pose proof (for_each_calls text_calls (handle_line env)
                  (handle_line_text_calls env)
                  (splitlines (last_line w ++ decode data)) _ _ H0) as H.
    destruct (for_each _ _ _) as [[[] | e] s1 c1];
      [destruct (endswith [NL] (last_line s1)) |];
      unfold text_calls, is_receiving in *; cbn in *;
      rewrite ?app_nil_r; exact H.
  - split; [reflexivity |]. unfold is_receiving in *. cbn.
    rewrite Hr. discriminate.
Qed.

Lemma receive_chunk_boundaries env data w prev :
  close_raises env = None ->
  consistent w ->
  is_receiving w = true ->
  full_so_far w prev ->
  let o := receive_chunk env data w in
  boundaries_ok prev (calls o) = true
  /\ full_so_far (final o) (last_written prev (calls o)).
Proof.
  intros Hc Hcons Hr Hfull. specialize (Hfull Hr).
  destruct w as [ll cv stt bl [rc fl rx hd fs] num buf wd cd].
  unfold consistent, is_receiving, full_so_far in *. cbn in Hcons, Hr.
  subst rc num.
  assert (Hprev : match prev with Some n => Nat.eqb n 1024 | None => true end
                  = true).
  { destruct Hfull as [-> | ->]; reflexivity. }
  unfold_all. cbn.
  destruct ((len buf + len data =? FILE_PACKET_SIZE)
            || (rx + (len buf + len data) >=? fs)) eqn:Hcond; cbn.
  - destruct fl as [f |]; cbn.
    + destruct (write_raises env (buf ++ data)) eqn:Hw; cbn.
      * split; [reflexivity | intros _; exact Hfull].
      * destruct (rx + len (buf ++ data) >=? fs) eqn:Hdone; cbn.
        -- rewrite Hc. cbn. rewrite Hprev.
           split; [reflexivity | intros H; discriminate H].
        -- rewrite Hprev. split; [reflexivity |]. intros _. right.
           assert (Hlen : len (buf ++ data) = len buf + len data).
           { unfold len. rewrite length_app. lia. }
           rewrite Hlen in Hdone.
           rewrite Hdone, orb_false_r in Hcond.
           apply Z.eqb_eq in Hcond. unfold FILE_PACKET_SIZE in Hcond.
           f_equal. rewrite <- Hlen in Hcond. unfold len in Hcond. lia.
    + split; [reflexivity | intros _; exact Hfull].
  - destruct (len buf + len data >? FILE_PACKET_SIZE); cbn;
      (split; [reflexivity | intros _; exact Hfull]).
Qed.

Lemma dispatch_boundaries ev w prev :
  closes ev ->
  consistent w ->
  full_so_far w prev ->
  let o := dispatch ev w in
  boundaries_ok prev (calls o) = true
  /\ full_so_far (final o) (last_written prev (calls o)).
Proof.
  intros Hc Hcons Hfull.
  destruct ev as [env data | | | text | env addr urx utx | env | val |].
  - cbn [dispatch]. unfold _handle_notification, bind, get.
    cbn [result final calls].
    destruct (is_receiving w) eqn:Hr.
    + pose proof (receive_chunk_boundaries env data w prev Hc Hcons Hr Hfull)
        as H.
      destruct (receive_chunk env data w) as [r s1 c1]. exact H.
    + destruct (receive_text_calls env data w Hr) as [Hs Ho].
      destruct (receive_text env data w) as [r s1 c1].
      cbn [final calls] in *.
      split; [apply no_write_boundaries; exact Hs |].
      intros Hr'. specialize (Ho Hr').
      rewrite (no_write_last_written _ _ Hs).
      destruct (opened c1); [congruence | left; reflexivity].
  - destruct w as [ll cv stt bl [rc fl rx hd fs] num buf wd cd].
    unfold full_so_far, is_receiving in *. cbn in Hfull.
    unfold_all. all_paths; split; solve [reflexivity | exact Hfull].
  - destruct w as [ll cv stt bl [rc fl rx hd fs] num buf [iv ac el] cd].
    unfold full_so_far, is_receiving in *. cbn in Hfull.
    unfold_all. all_paths; split; solve [reflexivity | exact Hfull].
  - destruct w as [ll cv stt bl [rc fl rx hd fs] num buf wd cd].
    unfold full_so_far, is_receiving in *. cbn in Hfull.
    unfold_all. all_paths; split; solve [reflexivity | exact Hfull].
  - destruct w as [ll cv stt [cl ca ru tu] [rc fl rx hd fs] num buf wd cd].
    unfold full_so_far, is_receiving in *. cbn in Hfull.
    unfold_all. all_paths; split; solve [reflexivity | exact Hfull].
  - destruct w as [ll cv stt [cl ca ru tu] [rc fl rx hd fs] num buf wd cd].
    unfold full_so_far, is_receiving in *. cbn in Hfull.
    unfold_all. all_paths; split; solve [reflexivity | exact Hfull].
  - destruct w as [ll cv stt bl [rc fl rx hd fs] num buf wd cd].
    unfold full_so_far, is_receiving in *. cbn in Hfull.
    unfold_all. all_paths; split; solve [reflexivity | exact Hfull].
  - destruct w as [ll cv stt bl [rc fl rx hd fs] num buf wd cd].
    unfold full_so_far, is_receiving in *. cbn in Hfull.
    unfold_all. all_paths; split; solve [reflexivity | exact Hfull].
Qed.

Lemma run_boundaries evs :
  Forall closes evs ->
  forall w prev,
    consistent w ->
    full_so_far w prev ->
    boundaries_ok prev (snd (run evs w)) = true.
Proof.
  induction 1 as [| ev evs Hev Hevs IH]; intros w prev Hcons Hfull; cbn.
  - reflexivity.
  - destruct (dispatch_boundaries ev w prev Hev Hcons Hfull) as [A B].
    pose proof (dispatch_consistent ev w Hcons) as C.
    destruct (dispatch ev w) as [r w1 c1]. cbn in A, B, C.
    specialize (IH w1 _ C B).
    destruct (run evs w1) as [w2 c2]. cbn in *.
    rewrite boundaries_ok_app, A, IH. reflexivity.
Qed.

(** What a payload chunk does when the file system is reliable. *)
Lemma receive_chunk_reliable env data w f :
  is_receiving w = true ->
  FileReceiver.file (file_receiver w) = Some f ->
  consistent w ->
  reliable env ->
  let o := _handle_notification env data w in
  let w' := final o in
  let n := packet_bytes_num w + len data in
  let rx := FileReceiver.rx_bytes (file_receiver w) in
  let fs := FileReceiver.file_size (file_receiver w) in
  consistent w'
  /\ FileReceiver.file_size (file_receiver w') = fs
  /\ (if (n =? FILE_PACKET_SIZE) || (rx + n >=? fs)
      then stored (calls o) = [packet_bytes w ++ data]
           /\ sent (calls o) = [FIL_ACK]
           /\ packet_bytes w' = []
           /\ FileReceiver.rx_bytes (file_receiver w') = rx + n
           /\ (if rx + n >=? fs
               then is_receiving w' = false
                    /\ FileReceiver.file (file_receiver w') = None
               else is_receiving w' = true
                    /\ FileReceiver.file (file_receiver w') = Some f)
      else stored (calls o) = []
           /\ sent (calls o) = []
           /\ packet_bytes w' = packet_bytes w ++ data
           /\ FileReceiver.rx_bytes (file_receiver w') = rx
           /\ is_receiving w' = true
           /\ FileReceiver.file (file_receiver w') = Some f).
Proof.
  intros Hr Hf Hc [Hw Hcl].
  destruct w as [ll cv stt bl [rc fl rx hd fs] num buf wd cd].
  unfold is_receiving, consistent in *. cbn in Hr, Hf, Hc. subst rc fl num.
  assert (Hlen : len (buf ++ data) = len buf + len data).
  { unfold len. rewrite length_app. lia. }
  unfold_all. cbn.
  destruct ((len buf + len data =? FILE_PACKET_SIZE)
            || (rx + (len buf + len data) >=? fs)) eqn:Hcond; cbn.
  - rewrite Hw. cbn. rewrite Hlen.
    destruct (rx + (len buf + len data) >=? fs) eqn:Hdone; cbn.
    + rewrite Hcl. cbn. repeat split.
    + repeat split.
  - destruct (len buf + len data >? FILE_PACKET_SIZE); cbn;
      repeat split; symmetry; exact Hlen.
Qed.

Lemma len_nonneg {A} (l : list A) : 0 <= len l.
Proof. unfold len. lia. Qed.

Lemma len_app {A} (a b : list A) : len (a ++ b) = len a + len b.
Proof. unfold len. rewrite length_app. lia. Qed.

Lemma len_concat_cons {A} (c : list A) cs :
  len (concat (c :: cs)) = len c + len (concat cs).
Proof. cbn [concat]. apply len_app. Qed.
Lemma packet_lengths_last n :
  0 < n <= FILE_PACKET_SIZE -> packet_lengths n = [n].
Proof.
  unfold packet_lengths, FILE_PACKET_SIZE. intros H.
  destruct (Z.eq_dec n 1024) as [-> | Hn]; [reflexivity |].
  rewrite Z.div_small, Z.mod_small by lia. cbn [Z.to_nat repeat app].
  destruct (Z.eqb_spec n 0); [lia | reflexivity].
Qed.

Lemma packet_lengths_step n :
  FILE_PACKET_SIZE < n ->
  packet_lengths n = FILE_PACKET_SIZE :: packet_lengths (n - FILE_PACKET_SIZE).
Proof.
  unfold packet_lengths, FILE_PACKET_SIZE. intros H.
  assert (Hd : n / 1024 = (n - 1024) / 1024 + 1).
  { rewrite <- Z.div_add by lia. f_equal. lia. }
  assert (Hm : n mod 1024 = (n - 1024) mod 1024).
  { rewrite <- (Z.mod_add (n - 1024) 1 1024) by lia. f_equal. lia. }
  assert (Hq : 0 <= (n - 1024) / 1024) by (apply Z.div_pos; lia).
  rewrite Hd, Hm, Z2Nat.inj_add by lia.
  rewrite Nat.add_comm. reflexivity.
Qed.

Lemma aligned_nonempty offset cs :
  aligned offset cs = true -> len (concat cs) = 0 -> cs = [].
Proof.
  destruct cs as [| c cs]; [reflexivity |].
  cbn [aligned]. intros H Hl.
  apply andb_prop in H. destruct H as [H _].
  apply andb_prop in H. destruct H as [H _].
  apply Z.ltb_lt in H.
  change (concat (c :: cs)) with (c ++ concat cs) in Hl.
  rewrite len_app in Hl.
  pose proof (len_nonneg (concat cs)). lia.
Qed.

(** Aligned chunks that end at the declared size are stored packet by
    packet. *)
Lemma aligned_delivery_gen env chunks :
  reliable env ->
  forall w f,
    is_receiving w = true ->
    FileReceiver.file (file_receiver w) = Some f ->
    consistent w ->
    FileReceiver.rx_bytes (file_receiver w) mod FILE_PACKET_SIZE = 0 ->
    0 <= packet_bytes_num w < FILE_PACKET_SIZE ->
    arrived w < FileReceiver.file_size (file_receiver w) ->
    aligned (arrived w) chunks = true ->
    arrived w + len (concat chunks)
    = FileReceiver.file_size (file_receiver w) ->
    let r := run (deliver env chunks) w in
    map len (stored (snd r))
    = packet_lengths (FileReceiver.file_size (file_receiver w)
                      - FileReceiver.rx_bytes (file_receiver w))
    /\ concat (stored (snd r)) = packet_bytes w ++ concat chunks
    /\ sent (snd r) = repeat FIL_ACK (List.length (stored (snd r)))
    /\ is_receiving (fst r) = false.
Proof.
  intros Henv.
  induction chunks as [| c cs IH];
    intros w f Hr Hf Hc Hmod Hnum Hlt Hal Htot; cbv zeta.
  - cbn in Htot. lia.
  - change (concat (c :: cs)) with (c ++ concat cs) in Htot.
    rewrite len_app in Htot. unfold arrived in Hlt, Hal, Htot.
    pose proof (len_nonneg (concat cs)) as Hcs0.
    cbn [aligned] in Hal.
    apply andb_prop in Hal. destruct Hal as [Hal Hrest].
    apply andb_prop in Hal. destruct Hal as [Hpos Hfit].
    apply Z.ltb_lt in Hpos. apply Z.leb_le in Hfit.
    assert (Hoff : (FileReceiver.rx_bytes (file_receiver w)
                    + packet_bytes_num w) mod FILE_PACKET_SIZE
                   = packet_bytes_num w).
    { unfold FILE_PACKET_SIZE in *.
      rewrite Z.add_mod, Hmod by lia. cbn [Z.add].
      rewrite Z.mod_mod by lia. apply Z.mod_small. lia. }
    rewrite Hoff in Hfit.
    pose proof (receive_chunk_reliable env c w f Hr Hf Hc Henv) as Hstep.
    cbv zeta in Hstep.
    unfold deliver. cbn [map run dispatch].
    destruct (_handle_notification env c w) as [res w1 c1].
    cbn [final calls] in Hstep.
    destruct Hstep as (Hc1 & Hfs1 & Hcase).
    fold (deliver env cs).
    destruct (FileReceiver.rx_bytes (file_receiver w)
              + (packet_bytes_num w + len c)
              >=? FileReceiver.file_size (file_receiver w)) eqn:Hdone.
    + (* the chunk that reaches the declared size *)
      rewrite orb_true_r in Hcase.
      destruct Hcase as (Hst & Hse & Hp & Hrx & Hrec & _).
      apply Z.geb_le in Hdone.
      assert (Hcs : cs = []).
      { apply (aligned_nonempty _ _ Hrest). lia. }
      subst cs. cbn [deliver map run fst snd].
      rewrite app_nil_r, Hst, Hse. cbn [map concat List.length repeat].
      rewrite !app_nil_r.
      repeat split; try assumption.
      rewrite packet_lengths_last.
      * rewrite len_app. unfold consistent in Hc. rewrite <- Hc.
        f_equal. lia.
      * lia.
    + rewrite orb_false_r in Hcase.
      rewrite Z.geb_leb in Hdone. apply Z.leb_gt in Hdone.
      destruct (packet_bytes_num w + len c =? FILE_PACKET_SIZE) eqn:Hfull.
      * (* a full packet *)
        apply Z.eqb_eq in Hfull.
        destruct Hcase as (Hst & Hse & Hp & Hrx & Hr1 & Hf1).
        assert (Hn1 : packet_bytes_num w1 = 0).
        { unfold consistent in Hc1. rewrite Hc1, Hp. reflexivity. }
        specialize (IH w1 f Hr1 Hf1 Hc1).
        unfold arrived in IH. rewrite Hrx, Hn1, Hfs1 in IH.
        destruct IH as (A & B & C & D).
        { unfold FILE_PACKET_SIZE in *. rewrite Hfull.
          rewrite Z.add_mod, Hmod by lia. reflexivity. }
        { unfold FILE_PACKET_SIZE. lia. }
        { lia. }
        { rewrite <- Hrest. f_equal. lia. }
        { lia. }
        destruct (run (deliver env cs) w1) as [w2 c2].
        cbn [fst snd] in *.
        rewrite stored_app, sent_app, Hst, Hse.
        cbn [map concat app List.length repeat].
        rewrite A, B, Hp, D. cbn [app].
        repeat split.
        -- rewrite (packet_lengths_step
                      (FileReceiver.file_size (file_receiver w)
                       - FileReceiver.rx_bytes (file_receiver w)))
             by (unfold FILE_PACKET_SIZE in *; lia).
           rewrite len_app. unfold consistent in Hc. rewrite <- Hc, Hfull.
           f_equal. f_equal. lia.
        -- rewrite <- app_assoc. reflexivity.
        -- f_equal. exact C.
      * (* the packet goes on *)
        apply Z.eqb_neq in Hfull.
        destruct Hcase as (Hst & Hse & Hp & Hrx & Hr1 & Hf1).
        assert (Hn1 : packet_bytes_num w1 = packet_bytes_num w + len c).
        { unfold consistent in Hc1, Hc. rewrite Hc1, Hp, len_app, Hc.
          reflexivity. }
        specialize (IH w1 f Hr1 Hf1 Hc1).
        unfold arrived in IH. rewrite Hrx, Hn1, Hfs1 in IH.
        destruct IH as (A & B & C & D).
        { exact Hmod. }
        { lia. }
        { lia. }
        { rewrite <- Hrest. f_equal. lia. }
        { lia. }
        destruct (run (deliver env cs) w1) as [w2 c2].
        cbn [fst snd] in *.
        rewrite stored_app, sent_app, Hst, Hse. cbn [app].
        rewrite A, B, Hp, D.
        repeat split.
        -- rewrite <- app_assoc. reflexivity.
        -- exact C.
Qed.
(** C3, amended. Three facts about the packets stored. In every run from
    a fresh window in which closing the file does not fail, a packet
    written to a file and followed by another packet written to the same
    file is exactly [FILE_PACKET_SIZE] bytes long. When writing and closing
    do not fail and a transfer that has just been opened receives its
    payload in one or more chunks that follow the packets (none is empty,
    none goes past a multiple of [FILE_PACKET_SIZE] bytes of the payload,
    and together they are as long as the declared size), the packets stored
    are the payload cut every [FILE_PACKET_SIZE] bytes: every one is
    [FILE_PACKET_SIZE] long except the last, whose length is the declared
    size modulo [FILE_PACKET_SIZE] (or [FILE_PACKET_SIZE] when that is 0);
    one FIL:ACK is sent for each and the transfer completes. But a chunk is
    never split: a 1500-byte transfer delivered as a single chunk is
    stored by one write of 1500 bytes, one FIL:ACK is sent, and the
    transfer completes. *)
Theorem packets_full_except_last :
  (forall evs,
      Forall closes evs ->
      boundaries_ok None (snd (run evs __init__)) = true)
  /\ (forall (env : Env) (chunks : list bytes) (w : MainWindow) (f : str),
        reliable env ->
        is_receiving w = true ->
        FileReceiver.file (file_receiver w) = Some f ->
        FileReceiver.rx_bytes (file_receiver w) = 0 ->
        packet_bytes w = [] ->
        packet_bytes_num w = 0 ->
        chunks <> [] ->
        aligned 0 chunks = true ->
        FileReceiver.file_size (file_receiver w) = len (concat chunks) ->
        let r := run (deliver env chunks) w in
        map len (stored (snd r))
        = packet_lengths (FileReceiver.file_size (file_receiver w))
        /\ concat (stored (snd r)) = concat chunks
        /\ sent (snd r) = repeat FIL_ACK (List.length (stored (snd r)))
        /\ is_receiving (fst r) = false)
  /\ (let r := run [Notification calm (announce "1500");
                    Notification calm (repeat x00 1500)] __init__ in
      stored (snd r) = [repeat x00 1500]
      /\ sent (snd r) = [FIL_ACK]
      /\ is_receiving (fst r) = false
      /\ appended (snd r)
         = [started_notice (lit "calib.bin") 1500; decode (announce "1500");
            complete_notice]).
Proof.
  split; [| split].
  - intros evs H. apply run_boundaries.
    + exact H.
    + reflexivity.
    + intros Hr. discriminate Hr.
  - intros env chunks w f Henv Hr Hf Hrx Hbuf Hnum Hne Hal Hsize.
    assert (Hpos : 0 < len (concat chunks)).
    { destruct chunks as [| c cs]; [contradiction |].
      cbn [aligned] in Hal.
      apply andb_prop in Hal. destruct Hal as [Hal _].
      apply andb_prop in Hal. destruct Hal as [Hal _].
      apply Z.ltb_lt in Hal.
      change (concat (c :: cs)) with (c ++ concat cs). rewrite len_app.
      pose proof (len_nonneg (concat cs)). lia. }
    pose proof (aligned_delivery_gen env chunks Henv w f Hr Hf) as G.
    unfold arrived in G. rewrite Hrx, Hnum, Hbuf in G.
    cbn [Z.add app] in G. rewrite Z.sub_0_r in G.
    apply G.
    + unfold consistent. rewrite Hnum, Hbuf. reflexivity.
    + reflexivity.
    + unfold FILE_PACKET_SIZE. lia.
    + lia.
    + exact Hal.
    + symmetry. exact Hsize.
  - vm_compute. repeat split.
Qed.

(** A 2048-byte transfer delivered as two chunks of 1024 bytes, and a
    1500-byte transfer delivered as chunks of 600, 424 and 476 bytes. *)
Lemma packets_full_except_last_witness :
  boundaries_ok None
    (snd (run [Notification calm (announce "2048");
               Notification calm (repeat x00 1024);
               Notification calm (repeat x00 1024)] __init__)) = true
  /\ (let chunks := [repeat x01 600; repeat x02 424; repeat x03 476] in
      let r := run (deliver calm chunks) calib_1500 in
      map len (stored (snd r)) = [1024; 476]
      /\ concat (stored (snd r)) = concat chunks
      /\ sent (snd r) = repeat FIL_ACK (List.length (stored (snd r)))
      /\ is_receiving (fst r) = false).
Proof.
  split.
  - apply (proj1 packets_full_except_last).
    repeat constructor.
  - apply (proj1 (proj2 packets_full_except_last) calm
             [repeat x01 600; repeat x02 424; repeat x03 476]
             calib_1500 (lit "calib.bin")); try reflexivity.
    + split; [intros d |]; reflexivity.
    + discriminate.
Defined.

(** ** C7: reassembly of lines from chunks *)

(** C7, as stated, fails on text with a lone carriage return, which
    [splitlines] takes for a line boundary. Split after "a\rb\n", the text
    "a\rb\n\n" gives the lines "b\n" and "a\r\n"; as one chunk it gives
    "b\n" and "\n" and keeps "a\r". And the single chunk "a\rb\rc\n" loses
    "a\r": only "c\n" is emitted and only "b\r" is kept. It also fails when
    a chunk boundary cuts a multi-byte character, because every chunk is
    decoded on its own: the two bytes of U+00E9 arriving in two chunks
    become two replacement characters. *)
Lemma chunk_independence_cex :
  let c1 := text "a" ++ [x0d] ++ text "b" ++ [x0a] in
  let c2 := [x0a] in
  let split := run [Notification calm c1; Notification calm c2] __init__ in
  let whole := _handle_notification calm (c1 ++ c2) __init__ in
  appended (snd split) <> appended (calls whole)
  /\ last_line (fst split) <> last_line (final whole)
  /\ (let d := text "a" ++ [x0d] ++ text "b" ++ [x0d] ++ text "c" ++ [x0a] in
      let o := _handle_notification calm d __init__ in
      concat (appended (calls o)) ++ last_line (final o) <> decode d)
  /\ appended (snd (run [Notification calm [xc3];
                         Notification calm [xa9; x0a]] __init__))
     <> appended (calls (_handle_notification calm [xc3; xa9; x0a] __init__)).
Proof.
  vm_compute. repeat split; intros H; discriminate H.
Qed.

Lemma lines_of_concat s :
  concat (fst (lines_of s)) ++ snd (lines_of s) = s.
Proof.
  induction s as [| c s IH]; [reflexivity |].
  cbn [lines_of]. destruct (lines_of s) as [ls t]. cbn [fst snd] in IH.
  destruct (c =? NL)%N; [cbn; rewrite IH; reflexivity |].
  destruct ls as [| l ls]; cbn in *; rewrite IH; reflexivity.
Qed.

Lemma contains_NL_cons c s :
  contains [NL] (c :: s) = (NL =? c)%N || contains [NL] s.
Proof.
  change (contains [NL] (c :: s))
    with (startswith [NL] (c :: s) || contains [NL] s).
  cbn [startswith]. rewrite andb_true_r. reflexivity.
Qed.

Lemma lines_of_rest_open s : contains [NL] (snd (lines_of s)) = false.
Proof.
  induction s as [| c s IH]; [reflexivity |].
  cbn [lines_of]. destruct (lines_of s) as [ls t]. cbn [fst snd] in IH.
  destruct (c =? NL)%N eqn:Hc; [exact IH |].
  destruct ls as [| l ls]; cbn [snd]; [| exact IH].
  rewrite contains_NL_cons, IH, N.eqb_sym, Hc. reflexivity.
Qed.

Lemma lines_of_no_NL s :
  contains [NL] s = false -> lines_of s = ([], s).
Proof.
  induction s as [| c s IH]; [reflexivity |].
  rewrite contains_NL_cons. intros H.
  apply orb_false_iff in H. destruct H as [Hc Hs].
  cbn [lines_of]. rewrite (IH Hs), N.eqb_sym, Hc. reflexivity.
Qed.

Lemma endswith_NL_cons c s :
  s <> [] -> endswith [NL] (c :: s) = endswith [NL] s.
Proof.
  intros Hs. unfold endswith. cbn [rev app].
  destruct (rev s) as [| x r] eqn:Hrev.
  - exfalso. apply Hs. rewrite <- (rev_involutive s), Hrev. reflexivity.
  - reflexivity.
Qed.

Lemma lines_of_terminated s :
  Forall (fun l => endswith [NL] l = true) (fst (lines_of s)).
Proof.
  induction s as [| c s IH]; [constructor |].
  cbn [lines_of]. destruct (lines_of s) as [ls t]. cbn [fst snd] in IH.
  destruct (c =? NL)%N eqn:Hc.
  - apply N.eqb_eq in Hc. subst c. constructor; [reflexivity | exact IH].
  - destruct ls as [| l ls]; [constructor |].
    inversion IH as [| ? ? Hl Hls]; subst.
    constructor; [| exact Hls].
    rewrite endswith_NL_cons; [exact Hl |].
    intros ->. discriminate Hl.
Qed.

Lemma lines_of_closed s :
  snd (lines_of s) = [] -> s <> [] -> endswith [NL] s = true.
Proof.
  induction s as [| c s IH]; [congruence |].
  intros Ht _. cbn [lines_of] in Ht.
  destruct (lines_of s) as [ls t] eqn:Hl. cbn [fst snd] in IH.
  destruct (c =? NL)%N eqn:Hc.
  - apply N.eqb_eq in Hc. subst c. cbn [snd] in Ht.
    destruct s as [| d s]; [reflexivity |].
    rewrite endswith_NL_cons by discriminate.
    apply IH; [exact Ht | discriminate].
  - destruct ls as [| l ls]; cbn [snd] in Ht; [discriminate Ht |].
    destruct s as [| d s]; [cbn in Hl; discriminate Hl |].
    rewrite endswith_NL_cons by discriminate.
    apply IH; [exact Ht | discriminate].
Qed.

(** The lines of a text can be taken prefix first. *)
Lemma lines_of_app a b :
  lines_of (a ++ b)
  = (fst (lines_of a) ++ fst (lines_of (snd (lines_of a) ++ b)),
     snd (lines_of (snd (lines_of a) ++ b))).
Proof.
  induction a as [| c a IH].
  - cbn. destruct (lines_of b). reflexivity.
  - cbn [app lines_of]. rewrite IH.
    destruct (lines_of a) as [ls t]. cbn [fst snd].
    destruct (c =? NL)%N eqn:Hc; [reflexivity |].
    destruct ls as [| l ls]; cbn [fst snd app].
    + cbn [lines_of]. destruct (lines_of (t ++ b)) as [ls' t']. rewrite Hc.
      destruct ls'; reflexivity.
    + reflexivity.
Qed.

Lemma splitlines_NL s : splitlines (NL :: s) = [NL] :: splitlines s.
Proof. destruct s; reflexivity. Qed.

(** On such a text [splitlines] yields the completed lines and then the
    unterminated rest. *)
Lemma splitlines_lines_of s :
  newline_only s = true ->
  splitlines s = fst (lines_of s) ++ rest_line (snd (lines_of s)).
Proof.
  induction s as [| c s IH]; [reflexivity |].
  intros H. cbn [newline_only] in H.
  apply andb_true_iff in H. destruct H as [Hc Hs]. specialize (IH Hs).
  cbn [lines_of].
  destruct (c =? NL)%N eqn:Hnl.
  - apply N.eqb_eq in Hnl. subst c. rewrite splitlines_NL, IH.
    destruct (lines_of s) as [ls t]. reflexivity.
  - destruct (c =? CR)%N eqn:Hcr.
    + apply N.eqb_eq in Hcr. subst c.
      destruct s as [| d s]; [reflexivity |].
      apply N.eqb_eq in Hc. subst d.
      rewrite splitlines_NL in IH.
      change (splitlines (CR :: NL :: s)) with ([CR; NL] :: splitlines s).
      cbn [lines_of] in IH |- *.
      destruct (lines_of s) as [ls t].
      rewrite N.eqb_refl in IH |- *.
      cbn [fst snd app] in IH |- *.
      injection IH as Heq. rewrite Heq. reflexivity.
    + assert (Hb : is_linebreak c = false).
      { apply orb_true_iff in Hc. destruct Hc as [Hc | Hc].
        - apply negb_true_iff. exact Hc.
        - congruence. }
      change (splitlines (c :: s))
        with (if is_linebreak c
              then match s with
                   | d :: s'' =>
                     if (c =? CR)%N && (d =? NL)%N
                     then [c; d] :: splitlines s''
                     else [c] :: splitlines s
                   | [] => [[c]]
                   end
              else match splitlines s with
                   | [] => [[c]]
                   | l :: ls => (c :: l) :: ls
                   end).
      rewrite Hb, IH.
      destruct (lines_of s) as [ls t]. cbn [fst snd].
      destruct ls as [| l ls]; [destruct t |]; reflexivity.
Qed.

Lemma log_lines_frame ls w :
  last_line (log_lines ls w) = last_line w
  /\ file_receiver (log_lines ls w) = file_receiver w.
Proof.
  revert w. induction ls as [| l ls IH]; intros w.
  - split; reflexivity.
  - destruct (IH (set_console_deque (deque_append l (console_deque w)) w))
      as [A B].
    split; [exact A | exact B].
Qed.

(** The loop over completed lines none of which is a directive. *)
Lemma loop_over_lines env ls w :
  Forall (fun l => endswith [NL] l = true /\ contains MARKER l = false) ls ->
  for_each ls (handle_line env) w
  = mkOut (Ok tt) (log_lines ls w) (map ConsoleAppend ls).
Proof.
  revert w. induction ls as [| l ls IH]; intros w H; [reflexivity |].
  inversion H as [| ? ? [Hend Hm] Hls]; subst.
  cbn [for_each map log_lines fold_left].
  unfold bind at 1. unfold handle_line at 1.
  rewrite Hm, Hend. unfold_monad. cbn.
  rewrite (IH _ Hls). reflexivity.
Qed.

(** The last round, over the unterminated rest. *)
Lemma loop_over_rest env t w :
  contains [NL] t = false ->
  t <> [] ->
  handle_line env t w = mkOut (Ok tt) (set_last_line t w) [].
Proof.
  intros Hn Ht. unfold handle_line.
  rewrite Hn, andb_false_r.
  destruct (endswith [NL] t) eqn:He.
  - apply endswith_contains_NL in He. congruence.
  - unfold_monad. reflexivity.
Qed.

Lemma loop_then env ls more w :
  Forall (fun l => endswith [NL] l = true /\ contains MARKER l = false) ls ->
  for_each (ls ++ more) (handle_line env) w
  = match for_each more (handle_line env) (log_lines ls w) with
    | mkOut r s c => mkOut r s (map ConsoleAppend ls ++ c)
    end.
Proof.
  revert w. induction ls as [| l ls IH]; intros w H.
  - cbn. destruct (for_each more _ w). reflexivity.
  - inversion H as [| ? ? [Hend Hm] Hls]; subst.
    cbn [app for_each map].
    unfold bind at 1. unfold handle_line at 1.
    rewrite Hm, Hend. unfold_monad. cbn.
    rewrite (IH _ Hls).
    change (log_lines (l :: ls) w)
      with (log_lines ls (set_console_deque
                            (deque_append l (console_deque w)) w)).
    destruct (for_each more _ _). reflexivity.
Qed.

Lemma appended_lines ls : appended (map ConsoleAppend ls) = ls.
Proof.
  induction ls as [| l ls IH]; [reflexivity |].
  cbn. f_equal. exact IH.
Qed.

Lemma appended_app a b : appended (a ++ b) = appended a ++ appended b.
Proof. unfold appended. apply flat_map_app. Qed.

(** What the text branch does with a chunk when no completed line is a
    directive. *)
Lemma receive_text_lines env data w :
  let s := last_line w ++ decode data in
  newline_only s = true ->
  (forall line, In line (fst (lines_of s)) -> contains MARKER line = false) ->
  exists w' tr,
    receive_text env data w = mkOut (Ok tt) w' tr
    /\ appended tr = fst (lines_of s)
    /\ last_line w' = snd (lines_of s)
    /\ file_receiver w' = file_receiver w.
Proof.
  intros s Hplain Hfree.
  unfold receive_text, when, _refresh_console_widget, bind, get, modify.
  cbn [result final calls last_line set_last_line].
  fold s.
  destruct (contains [NL] s) eqn:Hnl.
  - rewrite (splitlines_lines_of s Hplain).
    pose proof (lines_of_terminated s) as Hterm.
    pose proof (lines_of_rest_open s) as Hopen.
    pose proof (lines_of_closed s) as Hclosed.
    destruct (lines_of s) as [ls t]. cbn [fst snd] in *.
    assert (Hls : Forall (fun l => endswith [NL] l = true
                                   /\ contains MARKER l = false) ls).
    { rewrite Forall_forall in *. intros l Hl. split; auto. }
    rewrite (loop_then env ls (rest_line t) _ Hls).
    destruct (log_lines_frame ls (set_last_line s w)) as [Hll Hfr].
    destruct t as [| c t]; cbn [rest_line for_each].
    + unfold ret. cbn [result final calls]. rewrite Hll.
      cbn [last_line set_last_line].
      rewrite Hclosed;
        [| reflexivity | intros E; rewrite E in Hnl; discriminate].
      eexists. eexists. split; [reflexivity |].
      cbn. rewrite !app_nil_r, appended_lines, Hfr.
      repeat split.
    + unfold bind.
      rewrite (loop_over_rest env (c :: t) _ Hopen) by discriminate.
      unfold ret. cbn [result final calls last_line set_last_line].
      assert (He : endswith [NL] (c :: t) = false).
      { destruct (endswith [NL] (c :: t)) eqn:He; [| reflexivity].
        apply endswith_contains_NL in He. congruence. }
      rewrite He.
      eexists. eexists. split; [reflexivity |].
      cbn. rewrite !app_nil_r, appended_lines, Hfr.
      repeat split.
  - rewrite (lines_of_no_NL s Hnl). unfold ret.
    eexists. eexists. split; [reflexivity |]. repeat split.
Qed.

Lemma decode_N_ascii (l : list N) :
  forall fuel,
    (List.length l <= fuel)%nat ->
    Forall (fun c => (c < 128)%N) l ->
    decode_N fuel l = l.
Proof.
  induction l as [| c l IH]; intros fuel Hfuel Hall.
  - destruct fuel; reflexivity.
  - destruct fuel as [| fuel]; [cbn in Hfuel; lia |].
    inversion Hall as [| ? ? Hc Hl]; subst.
    cbn [decode_N]. apply N.ltb_lt in Hc. rewrite Hc.
    f_equal. apply IH; [cbn in Hfuel; lia | exact Hl].
Qed.

Lemma decode_ascii bs : ascii_bytes bs -> decode bs = map Byte.to_N bs.
Proof.
  intros H. unfold decode. apply decode_N_ascii.
  - rewrite length_map. lia.
  - apply Forall_map. exact H.
Qed.

Lemma newline_only_app_l a b :
  newline_only (a ++ b) = true -> newline_only a = true.
Proof.
  induction a as [| c a IH]; [reflexivity |].
  cbn [app newline_only]. intros H.
  apply andb_true_iff in H. destruct H as [Hc Ha].
  rewrite (IH Ha), andb_true_r.
  destruct (c =? CR)%N; [| exact Hc].
  destruct a; [reflexivity | exact Hc].
Qed.

Lemma newline_only_app_r a b :
  newline_only (a ++ b) = true -> newline_only b = true.
Proof.
  induction a as [| c a IH]; [trivial |].
  cbn [app newline_only]. intros H.
  apply andb_true_iff in H. destruct H as [_ Ha]. exact (IH Ha).
Qed.

(** The chunks of a text, fed one after the other to an Idle window. *)
Lemma run_chunks env chunks :
  forall w,
    is_receiving w = false ->
    contains [NL] (last_line w) = false ->
    ascii_bytes (concat chunks) ->
    let whole := last_line w ++ decode (concat chunks) in
    newline_only whole = true ->
    (forall line, In line (fst (lines_of whole)) ->
                  contains MARKER line = false) ->
    let r := run (map (Notification env) chunks) w in
    appended (snd r) = fst (lines_of whole)
    /\ last_line (fst r) = snd (lines_of whole)
    /\ is_receiving (fst r) = false.
Proof.
  induction chunks as [| c cs IH]; intros w Hr Hopen Hascii whole Hplain Hfree;
    cbv zeta.
  - subst whole. cbn in *. rewrite app_nil_r in *.
    rewrite (lines_of_no_NL _ Hopen). repeat split. exact Hr.
  - cbn [concat] in Hascii. unfold ascii_bytes in Hascii.
    apply Forall_app in Hascii. destruct Hascii as [Hc Hcs].
    assert (Hwhole : whole = (last_line w ++ decode c) ++ decode (concat cs)).
    { subst whole. cbn [concat].
      rewrite !decode_ascii, map_app, app_assoc;
        [reflexivity | exact Hcs | exact Hc |].
      apply Forall_app. split; assumption. }
    rewrite Hwhole in Hplain, Hfree |- *. clear Hwhole whole.
    set (s1 := last_line w ++ decode c) in *.
    rewrite lines_of_app in Hfree |- *. cbn [fst snd] in Hfree |- *.
    destruct (receive_text_lines env c w) as (w1 & tr1 & E & A & B & C).
    { exact (newline_only_app_l _ _ Hplain). }
    { intros line Hl. apply Hfree. apply in_or_app. left. exact Hl. }
    fold s1 in A, B.
    cbn [map run dispatch]. unfold _handle_notification, bind, get.
    cbn [result final calls]. rewrite Hr, E.
    specialize (IH w1).
    rewrite B in IH. cbn zeta in IH.
    destruct IH as (A2 & B2 & C2).
    + unfold is_receiving in *. rewrite C. exact Hr.
    + apply lines_of_rest_open.
    + exact Hcs.
    + rewrite <- (lines_of_concat s1), <- app_assoc in Hplain.
      exact (newline_only_app_r _ _ Hplain).
    + intros line Hl. apply Hfree. apply in_or_app. right. exact Hl.
    + destruct (run (map (Notification env) cs) w1) as [w2 tr2].
      cbn [fst snd] in *.
      cbn [app]. rewrite appended_app, A, A2. repeat split; assumption.
Qed.

(** C7, amended. Take an Idle window whose line buffer holds no newline,
    and ASCII bytes such that, in the buffered text followed by them, every
    line boundary is "\n" or "\r\n" and no completed line carries the
    directive marker. However the bytes are cut into chunks, the slot
    appends the same lines to the console (each with its newline) and keeps
    the same unterminated rest as when they arrive as one chunk; the lines
    followed by the rest are exactly the buffered text and the bytes, so
    nothing is dropped. *)
Theorem line_reassembly_chunk_independent :
  forall (env : Env) (chunks : list bytes) (w : MainWindow),
    is_receiving w = false ->
    contains [NL] (last_line w) = false ->
    ascii_bytes (concat chunks) ->
    let whole := last_line w ++ decode (concat chunks) in
    newline_only whole = true ->
    (forall line,
        In line (splitlines whole) -> endswith [NL] line = true ->
        contains MARKER line = false) ->
    let r := run (map (Notification env) chunks) w in
    let o := _handle_notification env (concat chunks) w in
    appended (snd r) = appended (calls o)
    /\ last_line (fst r) = last_line (final o)
    /\ concat (appended (snd r)) ++ last_line (fst r) = whole
    /\ Forall (fun l => endswith [NL] l = true) (appended (snd r))
    /\ contains [NL] (last_line (fst r)) = false
    /\ is_receiving (fst r) = false
    /\ result o = Ok tt.
Proof.
  intros env chunks w Hr Hopen Hascii whole Hplain Hfree r o.
  assert (Hfree' : forall line, In line (fst (lines_of whole)) ->
                                contains MARKER line = false).
  { intros line Hl. apply Hfree.
    - rewrite (splitlines_lines_of whole Hplain).
      apply in_or_app. left. exact Hl.
    - pose proof (lines_of_terminated whole) as Ht.
      rewrite Forall_forall in Ht. exact (Ht line Hl). }
  destruct (run_chunks env chunks w Hr Hopen Hascii Hplain Hfree')
    as (A & B & C).
  destruct (receive_text_lines env (concat chunks) w Hplain Hfree')
    as (w' & tr & E & A' & B' & _).
  fold whole in A, B, A', B'. fold r in A, B, C.
  assert (Ho : o = mkOut (Ok tt) w' tr).
  { subst o. unfold _handle_notification, bind, get.
    cbn [result final calls]. rewrite Hr, E. reflexivity. }
  rewrite Ho. cbn [result final calls].
  rewrite A, B, A', B'. repeat split.
  - apply lines_of_concat.
  - apply lines_of_terminated.
  - apply lines_of_rest_open.
  - exact C.
Qed.

(** The text "temp 21\r\nhum" + "id 40\r\nok" cut inside a line and between
    "\r" and "\n". *)
Lemma line_reassembly_chunk_independent_witness :
  let chunks := [text "temp 2"; text "1" ++ [x0d]; [x0a] ++ text "hum";
                 text "id 40" ++ [x0d; x0a] ++ text "ok"] in
  let r := run (map (Notification calm) chunks) __init__ in
  let o := _handle_notification calm (concat chunks) __init__ in
  appended (snd r) = appended (calls o)
  /\ last_line (fst r) = last_line (final o)
  /\ concat (appended (snd r)) ++ last_line (fst r)
     = last_line __init__ ++ decode (concat chunks)
  /\ Forall (fun l => endswith [NL] l = true) (appended (snd r))
  /\ contains [NL] (last_line (fst r)) = false
  /\ is_receiving (fst r) = false
  /\ result o = Ok tt.
Proof.
  intros chunks.
  apply (line_reassembly_chunk_independent calm chunks __init__).
  - reflexivity.
  - reflexivity.
  - unfold ascii_bytes. subst chunks. cbn.
    repeat constructor.
  - reflexivity.
  - intros line Hin _. vm_compute in Hin.
    destruct Hin as [<- | [<- | [<- | []]]]; reflexivity.
Defined.

(** * Further properties *)

(** ** The console deque *)

Lemma keep_last_length {A} n (l : list A) :
  (List.length (keep_last n l) <= n)%nat.
Proof. unfold keep_last. rewrite length_skipn. lia. Qed.

Lemma keep_last_all {A} n (l : list A) :
  (List.length l <= n)%nat -> keep_last n l = l.
Proof.
  intros H. unfold keep_last.
  replace (List.length l - n)%nat with 0%nat by lia. reflexivity.
Qed.

Lemma keep_last_app {A} n (l m : list A) :
  keep_last n (keep_last n l ++ m) = keep_last n (l ++ m).
Proof.
  destruct (Nat.le_gt_cases (List.length l) n) as [H | H].
  - rewrite (keep_last_all n l H). reflexivity.
  - unfold keep_last. rewrite !length_app, length_skipn.
    rewrite (skipn_app (List.length l + List.length m - n) l m).
    replace (List.length l - (List.length l - n) + List.length m - n)%nat
      with (List.length m) by lia.
    rewrite (skipn_app (List.length m) (skipn (List.length l - n) l) m).
    rewrite length_skipn, skipn_skipn.
    replace (List.length m - (List.length l - (List.length l - n)))%nat
      with (List.length l + List.length m - n - List.length l)%nat by lia.
    f_equal. f_equal. lia.
Qed.

Lemma deque_extend_snoc ls x d :
  deque_extend (ls ++ [x]) d = deque_append x (deque_extend ls d).
Proof. unfold deque_extend. rewrite fold_left_app. reflexivity. Qed.

Lemma deque_extend_maxlen ls d : maxlen (deque_extend ls d) = maxlen d.
Proof.
  revert d. induction ls as [| l ls IH]; intros d; [reflexivity |].
  change (deque_extend (l :: ls) d) with (deque_extend ls (deque_append l d)).
  rewrite IH. reflexivity.
Qed.

Lemma deque_extend_items ls d :
  within_capacity d ->
  items (deque_extend ls d) = keep_last (maxlen d) (items d ++ ls).
Proof.
  unfold within_capacity.
  revert d. induction ls as [| l ls IH]; intros d H.
  - cbn. rewrite app_nil_r, keep_last_all; [reflexivity | exact H].
  - change (deque_extend (l :: ls) d) with (deque_extend ls (deque_append l d)).
    rewrite IH.
    + cbn [deque_append deque_of maxlen items].
      rewrite keep_last_app, <- app_assoc. reflexivity.
    + cbn [deque_append deque_of maxlen items]. apply keep_last_length.
Qed.

Lemma deque_extend_within ls d :
  within_capacity d -> within_capacity (deque_extend ls d).
Proof.
  intros H. unfold within_capacity.
  rewrite deque_extend_maxlen, (deque_extend_items ls d H).
  apply keep_last_length.
Qed.

Lemma handle_line_console env d0 line w tr :
  console_follows d0 w tr ->
  console_follows d0 (final (handle_line env line w))
                  (tr ++ calls (handle_line env line w)).
Proof.
  unfold console_follows. intros H.
  destruct w as [ll cv stt bl [rc fl rx hd fs] num buf wd cd].
  cbn in H. subst cd.
  unfold_all. all_paths;
    rewrite ?appended_app, ?app_nil_r; cbn [appended flat_map app];
    rewrite ?deque_extend_snoc; try reflexivity.
  all: change (appended tr ++ [?a; ?b]) with (appended tr ++ [a] ++ [b]);
    rewrite ?app_assoc, !deque_extend_snoc; reflexivity.
Qed.

Lemma receive_text_console env data w :
  console_follows (console_deque w) (final (receive_text env data w))
                  (calls (receive_text env data w)).
Proof.
  unfold receive_text, when, _refresh_console_widget, bind, get, modify.
  cbn.
  destruct (contains [NL] (last_line w ++ decode data)); cbn.
  - assert (H0 : console_follows (console_deque w)
                   (set_last_line (last_line w ++ decode data) w) []).
    { reflexivity. }
    pose proof (for_each_calls (console_follows (console_deque w))
                  (handle_line env)
                  (fun x s tr => handle_line_console env _ x s tr)
                  (splitlines (last_line w ++ decode data)) _ _ H0) as H.
    destruct (for_each _ _ _) as [[[] | e] s1 c1];
      [destruct (endswith [NL] (last_line s1)) |];
      unfold console_follows in *; cbn in *;
      rewrite ?app_nil_r; exact H.
  - reflexivity.
Qed.

Lemma dispatch_console ev w :
  keeps_console ev ->
  console_follows (console_deque w) (final (dispatch ev w))
                  (calls (dispatch ev w)).
Proof.
  intros Hev.
  destruct ev as [env data | | | text | env addr urx utx | env | val |];
    try contradiction.
  - cbn [dispatch]. unfold _handle_notification, bind, get.
    cbn [result final calls].
    destruct (is_receiving w) eqn:Hr.
    + destruct w as [ll cv stt bl [rc fl rx hd fs] num buf wd cd].
      unfold console_follows. unfold_all. all_paths; reflexivity.
    + pose proof (receive_text_console env data w) as H.
      destruct (receive_text env data w) as [r s1 c1]. exact H.
  - destruct w as [ll cv stt bl [rc fl rx hd fs] num buf wd cd].
    unfold console_follows. unfold_all. all_paths; reflexivity.
  - destruct w as [ll cv stt bl [rc fl rx hd fs] num buf [iv ac el] cd].
    unfold console_follows. unfold_all. all_paths; reflexivity.
  - destruct w as [ll cv stt bl [rc fl rx hd fs] num buf wd cd].
    unfold console_follows. unfold_all. all_paths; reflexivity.
  - destruct w as [ll cv stt [cl ca ru tu] [rc fl rx hd fs] num buf wd cd].
    unfold console_follows. unfold_all. all_paths; reflexivity.
  - destruct w as [ll cv stt [cl ca ru tu] [rc fl rx hd fs] num buf wd cd].
    unfold console_follows. unfold_all. all_paths; reflexivity.
Qed.

Lemma deque_extend_app a b d :
  deque_extend (a ++ b) d = deque_extend b (deque_extend a d).
Proof. unfold deque_extend. apply fold_left_app. Qed.

Lemma run_console evs :
  Forall keeps_console evs ->
  forall w,
    console_deque (fst (run evs w))
    = deque_extend (appended (snd (run evs w))) (console_deque w).
Proof.
  induction 1 as [| ev evs Hev Hevs IH]; intros w; cbn.
  - reflexivity.
  - pose proof (dispatch_console ev w Hev) as H.
    destruct (dispatch ev w) as [r w1 c1]. unfold console_follows in H.
    cbn [final calls] in H. specialize (IH w1).
    destruct (run evs w1) as [w2 c2]. cbn [fst snd] in *.
    rewrite appended_app, deque_extend_app, <- H. exact IH.
Qed.

(** X1. As long as the console is neither resized nor cleared, it holds
    exactly the last 50 lines that the slots have appended since the window
    was created, oldest first, whatever the events were. *)
Theorem console_holds_last_lines :
  forall evs,
    Forall keeps_console evs ->
    let r := run evs __init__ in
    items (console_deque (fst r)) = keep_last 50 (appended (snd r))
    /\ maxlen (console_deque (fst r)) = 50%nat.
Proof.
  intros evs H r. subst r.
  rewrite (run_console evs H __init__).
  rewrite deque_extend_maxlen, deque_extend_items.
  - split; reflexivity.
  - unfold within_capacity. cbn. lia.
Qed.

Lemma console_holds_last_lines_witness :
  let r := run [Notification calm (announce "2048");
                Notification calm (repeat x00 1030); RxTimeout] __init__ in
  items (console_deque (fst r)) = keep_last 50 (appended (snd r))
  /\ maxlen (console_deque (fst r)) = 50%nat.
Proof.
  apply console_holds_last_lines. repeat constructor.
Defined.

Lemma dispatch_within_capacity ev w :
  within_capacity (console_deque w) ->
  within_capacity (console_deque (final (dispatch ev w))).
Proof.
  intros H.
  destruct ev as [env data | | | text | env addr urx utx | env | val |].
  1-6: match goal with
       | |- context [dispatch ?ev ?w0] =>
         rewrite (dispatch_console ev w0 I); apply deque_extend_within;
         exact H
       end.
  - destruct w as [ll cv stt bl fr num buf wd cd].
    unfold_all. cbn. unfold within_capacity. cbn. apply keep_last_length.
  - destruct w as [ll cv stt bl fr num buf wd cd].
    unfold_all. cbn. unfold within_capacity. cbn. lia.
Qed.

(** X2. The console never holds more lines than its capacity: this is so
    in a fresh window and after every sequence of events, including a
    change of the capacity to a smaller value, after which the newest
    lines are the ones that remain. *)
Theorem console_within_capacity :
  (forall evs, within_capacity (console_deque (fst (run evs __init__))))
  /\ (forall val w,
        let w' := final (on_max_lines_changed val w) in
        items (console_deque w') = keep_last val (items (console_deque w))
        /\ maxlen (console_deque w') = val
        /\ console_view w' = concat (items (console_deque w'))).
Proof.
  split.
  - intros evs.
    apply (run_keeps (fun w => within_capacity (console_deque w))).
    + intros ev w. apply dispatch_within_capacity.
    + unfold within_capacity. cbn. lia.
  - intros val w. destruct w as [ll cv stt bl fr num buf wd cd].
    unfold_all. cbn. repeat split.
Qed.

(** ** Payload accounting *)

Lemma transfer_in_progress_gen env chunks :
  reliable env ->
  forall w f,
    is_receiving w = true ->
    FileReceiver.file (file_receiver w) = Some f ->
    consistent w ->
    arrived w + len (concat chunks)
    < FileReceiver.file_size (file_receiver w) ->
    let r := run (deliver env chunks) w in
    is_receiving (fst r) = true
    /\ FileReceiver.file (file_receiver (fst r)) = Some f
    /\ consistent (fst r)
    /\ FileReceiver.file_size (file_receiver (fst r))
       = FileReceiver.file_size (file_receiver w)
    /\ nothing_lost w chunks r.
Proof.
  intros Henv.
  induction chunks as [| c cs IH]; intros w f Hr Hf Hc Hlt; cbv zeta.
  - cbn. unfold nothing_lost. cbn. rewrite app_nil_r, Z.add_0_r.
    repeat split; auto.
  - rewrite len_concat_cons in Hlt. unfold arrived in Hlt.
    pose proof (len_nonneg c) as Hc0.
    pose proof (len_nonneg (concat cs)) as Hcs0.
    pose proof (receive_chunk_reliable env c w f Hr Hf Hc Henv) as Hstep.
    cbv zeta in Hstep.
    unfold deliver. cbn [map run dispatch].
    destruct (_handle_notification env c w) as [res w1 c1].
    cbn [final calls] in Hstep.
    destruct Hstep as (Hc1 & Hfs1 & Hcase).
    assert (Hnot : (FileReceiver.rx_bytes (file_receiver w)
                    + (packet_bytes_num w + len c)
                    >=? FileReceiver.file_size (file_receiver w)) = false).
    { rewrite Z.geb_leb. apply Z.leb_gt. lia. }
    rewrite Hnot, orb_false_r in Hcase.
    assert (Hrec1 : is_receiving w1 = true
                    /\ FileReceiver.file (file_receiver w1) = Some f).
    { destruct (packet_bytes_num w + len c =? FILE_PACKET_SIZE);
        intuition. }
    destruct Hrec1 as [Hr1 Hf1].
    assert (Harr : arrived w1 = arrived w + len c).
    { unfold arrived. unfold consistent in Hc, Hc1. rewrite Hc1, Hc.
      destruct (packet_bytes_num w + len c =? FILE_PACKET_SIZE);
        destruct Hcase as (_ & _ & Hp & Hrx & _); rewrite Hp, Hrx.
      - rewrite Hc. cbn. lia.
      - rewrite len_app. lia. }
    specialize (IH w1 f Hr1 Hf1 Hc1).
    fold (deliver env cs).
    destruct IH as (A & B & C & D & E1 & E2 & E3 & E4).
    { rewrite Harr, Hfs1. unfold arrived. lia. }
    destruct (run (deliver env cs) w1) as [w2 c2].
    cbn [fst snd] in *.
    split; [exact A |]. split; [exact B |]. split; [exact C |].
    split; [congruence |].
    unfold nothing_lost. cbn [fst snd].
    rewrite stored_app, sent_app, concat_app.
    destruct (packet_bytes_num w + len c =? FILE_PACKET_SIZE) eqn:Hfull;
      destruct Hcase as (Hst & Hse & Hp & Hrx & _); rewrite Hst, Hse.
    + apply Z.eqb_eq in Hfull.
      rewrite Hp in E1. cbn [app] in E1.
      cbn [concat app List.length repeat].
      rewrite app_nil_r, <- !app_assoc, E1.
      repeat split.
      * rewrite E2, Hrx, !len_app. unfold consistent in Hc. rewrite Hc. lia.
      * f_equal. exact E3.
      * constructor; [| exact E4].
        rewrite len_app. unfold consistent in Hc. rewrite <- Hc. exact Hfull.
    + rewrite Hp in E1. cbn [concat app List.length repeat].
      rewrite E1, <- app_assoc.
      repeat split; try assumption.
      rewrite E2, Hrx. reflexivity.
Qed.

(** X3. While the bytes that arrived stay short of the announced size and
    the file system is reliable, a transfer loses nothing and stays open:
    the packets written, followed by the packet buffer, are exactly the
    bytes delivered (after what was already buffered), every packet written
    is a full one, one FIL:ACK was sent for each, and [rx_bytes] counts the
    bytes written. *)
Theorem transfer_in_progress :
  forall (env : Env) (chunks : list bytes) (w : MainWindow) (f : str),
    reliable env ->
    is_receiving w = true ->
    FileReceiver.file (file_receiver w) = Some f ->
    consistent w ->
    arrived w + len (concat chunks)
    < FileReceiver.file_size (file_receiver w) ->
    let r := run (deliver env chunks) w in
    is_receiving (fst r) = true
    /\ nothing_lost w chunks r.
Proof.
  intros env chunks w f Henv Hr Hf Hc Hlt r.
  destruct (transfer_in_progress_gen env chunks Henv w f Hr Hf Hc Hlt)
    as (A & _ & _ & _ & E).
  split; assumption.
Qed.

(** 2047 of the 2048 bytes of a transfer, in chunks of 1000, 24 and 1023
    bytes. *)
Lemma transfer_in_progress_witness :
  let chunks := [repeat x01 1000; repeat x02 24; repeat x03 1023] in
  let r := run (deliver calm chunks) calib_2048 in
  is_receiving (fst r) = true
  /\ nothing_lost calib_2048 chunks r.
Proof.
  intros chunks.
  apply (transfer_in_progress calm chunks calib_2048 (lit "calib.bin")).
  - split; [intros d |]; reflexivity.
  - reflexivity.
  - reflexivity.
  - reflexivity.
  - vm_compute. reflexivity.
Defined.

Lemma deliver_app env a b :
  deliver env (a ++ b) = deliver env a ++ deliver env b.
Proof. unfold deliver. apply map_app. Qed.

(** X4. When the file system is reliable, the chunk that brings the bytes
    arrived up to the announced size completes the transfer: the file is
    closed, the window is Idle with an empty packet buffer, and the packets
    written are, in order, exactly the bytes delivered since the buffer was
    last empty, including whatever the last chunk carries beyond the
    announced size. *)
Theorem transfer_completes_with_all_bytes :
  forall (env : Env) (chunks : list bytes) (last : bytes) (w : MainWindow)
         (f : str),
    reliable env ->
    is_receiving w = true ->
    FileReceiver.file (file_receiver w) = Some f ->
    consistent w ->
    arrived w + len (concat chunks)
    < FileReceiver.file_size (file_receiver w) ->
    FileReceiver.file_size (file_receiver w)
    <= arrived w + len (concat chunks) + len last ->
    let r := run (deliver env (chunks ++ [last])) w in
    is_receiving (fst r) = false
    /\ FileReceiver.file (file_receiver (fst r)) = None
    /\ packet_bytes (fst r) = []
    /\ concat (stored (snd r)) = packet_bytes w ++ concat chunks ++ last
    /\ FileReceiver.rx_bytes (file_receiver (fst r))
       = arrived w + len (concat chunks) + len last.
Proof.
  intros env chunks last w f Henv Hr Hf Hc Hlt Hge. cbv zeta.
  destruct (transfer_in_progress_gen env chunks Henv w f Hr Hf Hc Hlt)
    as (A & B & C & D & E1 & E2 & _ & _).
  rewrite deliver_app, run_app.
  destruct (run (deliver env chunks) w) as [w1 c1].
  change (deliver env [last]) with [Notification env last].
  cbn [fst snd] in *.
  pose proof (receive_chunk_reliable env last w1 f A B C Henv) as Hstep.
  cbv zeta in Hstep.
  cbn [run dispatch].
  destruct (_handle_notification env last w1) as [res w2 c2].
  cbn [fst snd final calls] in *.
  destruct Hstep as (_ & _ & Hcase).
  assert (Harr : FileReceiver.rx_bytes (file_receiver w1) + packet_bytes_num w1
                 = arrived w + len (concat chunks)).
  { unfold arrived. unfold consistent in C, Hc. rewrite C, E2, Hc.
    apply (f_equal len) in E1. rewrite !len_app in E1. lia. }
  assert (Hdone : (FileReceiver.rx_bytes (file_receiver w1)
                   + (packet_bytes_num w1 + len last)
                   >=? FileReceiver.file_size (file_receiver w1)) = true).
  { apply Z.geb_le. rewrite D. lia. }
  rewrite Hdone, orb_true_r in Hcase.
  destruct Hcase as (Hst & _ & Hp & Hrx & Hrec & Hfile).
  rewrite app_nil_r, stored_app, concat_app, Hst.
  cbn [concat]. rewrite app_nil_r.
  repeat split; try assumption.
  - rewrite app_assoc, E1, <- !app_assoc. reflexivity.
  - rewrite Hrx. lia.
Qed.

(** A 2048-byte transfer whose last chunk carries 100 bytes too many. *)
Lemma transfer_completes_with_all_bytes_witness :
  let chunks := [repeat x01 1024; repeat x02 500] in
  let last := repeat x03 624 in
  let r := run (deliver calm (chunks ++ [last])) calib_2048 in
  is_receiving (fst r) = false
  /\ FileReceiver.file (file_receiver (fst r)) = None
  /\ packet_bytes (fst r) = []
  /\ concat (stored (snd r)) = packet_bytes calib_2048 ++ concat chunks ++ last
  /\ FileReceiver.rx_bytes (file_receiver (fst r))
     = arrived calib_2048 + len (concat chunks) + len last.
Proof.
  intros chunks last.
  apply (transfer_completes_with_all_bytes calm chunks last calib_2048
           (lit "calib.bin")).
  - split; [intros d |]; reflexivity.
  - reflexivity.
  - reflexivity.
  - reflexivity.
  - vm_compute. reflexivity.
  - vm_compute. intros H. discriminate H.
Defined.

(** ** Overrun *)

Lemma overrun_chunk env data w :
  is_receiving w = true ->
  packet_bytes_num w + len data > FILE_PACKET_SIZE ->
  arrived w + len data < FileReceiver.file_size (file_receiver w) ->
  _handle_notification env data w
  = mkOut (Ok tt)
      (set_rx_watchdog (QTimer_start (rx_watchdog w))
         (set_console_deque (deque_append overrun_diagnostic (console_deque w))
            (set_packet_bytes_num (packet_bytes_num w + len data)
               (set_packet_bytes (packet_bytes w ++ data) w))))
      [ConsoleAppend overrun_diagnostic].
Proof.
  intros Hr Hover Hlt.
  destruct w as [ll cv stt bl [rc fl rx hd fs] num buf wd cd].
  unfold is_receiving, arrived in *. cbn in Hr, Hover, Hlt. subst rc.
  unfold FILE_PACKET_SIZE in *.
  unfold_all. cbn.
  assert (H1 : (num + len data =? FILE_PACKET_SIZE) = false).
  { apply Z.eqb_neq. unfold FILE_PACKET_SIZE. lia. }
  assert (H2 : (rx + (num + len data) >=? fs) = false).
  { rewrite Z.geb_leb. apply Z.leb_gt. lia. }
  assert (H3 : (num + len data >? FILE_PACKET_SIZE) = true).
  { apply Z.gtb_lt. unfold FILE_PACKET_SIZE. lia. }
  rewrite H1, H2. cbn. rewrite H3. cbn. reflexivity.
Qed.

(** X5. Once the packet buffer holds more than [FILE_PACKET_SIZE] bytes,
    no later chunk is acknowledged or written while the bytes arrived stay
    short of the announced size, whatever the file system does: every such
    chunk is added to the buffer and restarts the watchdog, and the slot
    appends the overrun diagnostic to the console deque without refreshing
    the console widget. *)
Theorem overrun_is_never_acknowledged :
  forall (env : Env) (chunks : list bytes) (w : MainWindow),
    is_receiving w = true ->
    packet_bytes_num w > FILE_PACKET_SIZE ->
    arrived w + len (concat chunks)
    < FileReceiver.file_size (file_receiver w) ->
    let r := run (deliver env chunks) w in
    sent (snd r) = []
    /\ stored (snd r) = []
    /\ appended (snd r) = repeat overrun_diagnostic (List.length chunks)
    /\ is_receiving (fst r) = true
    /\ packet_bytes (fst r) = packet_bytes w ++ concat chunks
    /\ packet_bytes_num (fst r) = packet_bytes_num w + len (concat chunks)
    /\ console_view (fst r) = console_view w
    /\ rx_watchdog (fst r)
       = match chunks with
         | [] => rx_watchdog w
         | _ => QTimer_start (rx_watchdog w)
         end.
Proof.
  intros env chunks.
  induction chunks as [| c cs IH]; intros w Hr Hover Hlt; cbv zeta.
  - cbn. rewrite app_nil_r, Z.add_0_r. repeat split; congruence.
  - change (concat (c :: cs)) with (c ++ concat cs) in Hlt |- *.
    rewrite len_app in Hlt |- *.
    pose proof (len_nonneg c) as Hc0.
    pose proof (len_nonneg (concat cs)) as Hcs0.
    change (deliver env (c :: cs)) with (Notification env c :: deliver env cs).
    cbn [run dispatch].
    rewrite (overrun_chunk env c w Hr) by lia.
    set (w1 := set_rx_watchdog _ _).
    specialize (IH w1). cbv zeta in IH.
    destruct IH as (A & B & C & D & E & F & G & H).
    + exact Hr.
    + subst w1. cbn. lia.
    + subst w1. unfold arrived in *. cbn. lia.
    + destruct (run (deliver env cs) w1) as [w2 c2]. cbn [fst snd] in *.
      cbn [app sent stored appended flat_map List.length repeat concat].
      fold (sent c2). fold (stored c2). fold (appended c2).
      rewrite A, B, C, D, E, F, G. subst w1. cbn.
      rewrite <- app_assoc. repeat split; try lia.
      rewrite H. destruct cs; reflexivity.
Qed.

(** Two more chunks after a 1030-byte chunk at the start of a 4096-byte
    transfer, on a file system that would refuse every write. *)
Lemma overrun_is_never_acknowledged_witness :
  let w := final (_handle_notification calm (repeat x00 1030)
                    (final (_handle_notification calm (announce "4096")
                              __init__))) in
  let chunks := [repeat x01 500; repeat x02 524] in
  let r := run (deliver disk_full chunks) w in
  sent (snd r) = []
  /\ stored (snd r) = []
  /\ appended (snd r) = repeat overrun_diagnostic (List.length chunks)
  /\ is_receiving (fst r) = true
  /\ packet_bytes (fst r) = packet_bytes w ++ concat chunks
  /\ packet_bytes_num (fst r) = packet_bytes_num w + len (concat chunks)
  /\ console_view (fst r) = console_view w
  /\ rx_watchdog (fst r)
     = match chunks with
       | [] => rx_watchdog w
       | _ => QTimer_start (rx_watchdog w)
       end.
Proof.
  intros w chunks.
  apply (overrun_is_never_acknowledged disk_full chunks w).
  - reflexivity.
  - vm_compute. reflexivity.
  - vm_compute. reflexivity.
Defined.

(** ** What each slot leaves alone *)

Lemma handle_line_text_effects env line w tr :
  Forall text_effect tr ->
  Forall text_effect (tr ++ calls (handle_line env line w)).
Proof.
  intros H. apply Forall_app. split; [exact H |].
  destruct w as [ll cv stt bl [rc fl rx hd fs] num buf wd cd].
  unfold_all. all_paths; repeat constructor.
Qed.

Lemma receive_text_effects env data w :
  Forall text_effect (calls (receive_text env data w)).
Proof.
  unfold receive_text, when, _refresh_console_widget, bind, get, modify.
  cbn.
  destruct (contains [NL] (last_line w ++ decode data)); cbn.
  - pose proof (for_each_calls (fun _ tr => Forall text_effect tr)
                  (handle_line env)
                  (fun x s tr => handle_line_text_effects env x s tr)
                  (splitlines (last_line w ++ decode data))
                  (set_last_line (last_line w ++ decode data) w) []
                  (Forall_nil _)) as H.
    destruct (for_each _ _ _) as [[[] | e] s1 c1];
      [destruct (endswith [NL] (last_line s1)) |];
      cbn in *; rewrite ?app_nil_r; exact H.
  - constructor.
Qed.

Lemma text_effects_quiet tr :
  Forall text_effect tr -> stored tr = [] /\ sent tr = [].
Proof.
  induction 1 as [| e tr He Htr [IH1 IH2]]; [split; reflexivity |].
  destruct e; cbn in He; try contradiction; cbn; split; assumption.
Qed.

(** X6. While Idle, a chunk is never taken for payload, whatever it holds
    and whether or not the slot raises: the only calls of the slot are file
    openings and console appends, so nothing is written to a file and no
    command is sent, and the packet buffer, its counter and the watchdog
    are left as they were. In particular the bytes that follow a directive
    in the same chunk are not stored. *)
Theorem idle_chunk_is_never_payload :
  forall (env : Env) (data : bytes) (w : MainWindow),
    is_receiving w = false ->
    let o := _handle_notification env data w in
    Forall text_effect (calls o)
    /\ stored (calls o) = []
    /\ sent (calls o) = []
    /\ same_packet w (final o).
Proof.
  intros env data w Hr o. subst o.
  unfold _handle_notification, bind, get. cbn [result final calls].
  rewrite Hr.
  pose proof (receive_text_effects env data w) as H.
  pose proof (receive_text_same_packet env data w) as Hp.
  destruct (receive_text env data w) as [r s1 c1]. cbn [final calls] in *.
  destruct (text_effects_quiet c1 H) as [A B].
  repeat split; try assumption; apply Hp.
Qed.

(** A directive followed by 1024 bytes in one chunk. *)
Lemma idle_chunk_is_never_payload_witness :
  let o := _handle_notification calm (announce "1024" ++ repeat x00 1024)
                                __init__ in
  Forall text_effect (calls o)
  /\ stored (calls o) = []
  /\ sent (calls o) = []
  /\ same_packet __init__ (final o).
Proof.
  apply (idle_chunk_is_never_payload calm _ __init__). reflexivity.
Defined.

(** X7. The slots of the buttons, of the spin box and of the BLE worker's
    signals leave the transfer alone: the receiver, the packet buffer and
    its counter, the watchdog and the line buffer are unchanged, no file is
    opened or written and no command is sent. Conversely a payload chunk, a
    watchdog timeout and a millisecond going by, in an open transfer, leave
    the line buffer, the BLE worker, the status text and the console
    capacity alone and open no file. *)
Theorem slots_keep_to_their_state :
  (forall ev w,
      ui_event ev ->
      let o := dispatch ev w in
      same_transfer w (final o)
      /\ opened (calls o) = [] /\ stored (calls o) = [] /\ sent (calls o) = [])
  /\ (forall ev w,
        is_receiving w = true ->
        match ev with
        | Notification _ _ | RxTimeout | Tick => True
        | _ => False
        end ->
        let o := dispatch ev w in
        same_surroundings w (final o) /\ opened (calls o) = []).
Proof.
  split.
  - intros ev w Hev.
    destruct ev as [env data | | | text | env addr urx utx | env | val |];
      try contradiction; cbv zeta.
    + destruct w as [ll cv stt bl [rc fl rx hd fs] num buf wd cd].
      unfold same_transfer. unfold_all. all_paths; repeat split.
    + destruct w as [ll cv stt [cl ca ru tu] [rc fl rx hd fs] num buf wd cd].
      unfold same_transfer. unfold_all. all_paths; repeat split.
    + destruct w as [ll cv stt [cl ca ru tu] [rc fl rx hd fs] num buf wd cd].
      unfold same_transfer. unfold_all. all_paths; repeat split.
    + destruct w as [ll cv stt bl [rc fl rx hd fs] num buf wd cd].
      unfold same_transfer. unfold_all. all_paths; repeat split.
    + destruct w as [ll cv stt bl [rc fl rx hd fs] num buf wd cd].
      unfold same_transfer. unfold_all. all_paths; repeat split.
  - intros ev w Hr Hev.
    destruct ev as [env data | | | text | env addr urx utx | env | val |];
      try contradiction; cbv zeta.
    + cbn [dispatch]. unfold _handle_notification, bind, get.
      cbn [result final calls]. rewrite Hr.
      destruct w as [ll cv stt bl [rc fl rx hd fs] num buf wd cd].
      unfold same_surroundings. unfold_all. all_paths; repeat split.
    + destruct w as [ll cv stt bl [rc fl rx hd fs] num buf wd cd].
      unfold same_surroundings. unfold_all. all_paths; repeat split.
    + destruct w as [ll cv stt bl [rc fl rx hd fs] num buf [iv ac el] cd].
      unfold same_surroundings. unfold_all. all_paths; repeat split.
Qed.

(** A connection attempt that fails, in the middle of a transfer. *)
Lemma slots_keep_to_their_state_witness :
  let refused :=
    {| open_raises := fun _ => None; write_raises := fun _ => None;
       close_raises := None; disconnect_raises := None;
       connect_raises := Some (lit "Device not found");
       start_notify_raises := None |} in
  let o := dispatch (Connect refused (lit "AA:BB") None None)
                    connected_receiving in
  same_transfer connected_receiving (final o)
  /\ opened (calls o) = [] /\ stored (calls o) = [] /\ sent (calls o) = [].
Proof.
  intros refused.
  apply (proj1 slots_keep_to_their_state). exact I.
Defined.

(** ** Use of the file *)

Lemma str_eqb_refl s : str_eqb s s = true.
Proof.
  induction s as [| c s IH]; [reflexivity |].
  cbn. rewrite N.eqb_refl. exact IH.
Qed.

Lemma file_use_ok_app h a b :
  file_use_ok h (a ++ b) = file_use_ok h a && file_use_ok (open_after h a) b.
Proof.
  revert h. induction a as [| e a IH]; intros h; cbn.
  - reflexivity.
  - destruct e; cbn; rewrite ?IH, ?andb_assoc; reflexivity.
Qed.

Lemma open_after_app h a b :
  open_after h (a ++ b) = open_after (open_after h a) b.
Proof.
  revert h. induction a as [| e a IH]; intros h; cbn.
  - reflexivity.
  - destruct e; cbn; rewrite ?IH; reflexivity.
Qed.

Lemma files_in_step_app h w tr w' tr' :
  files_in_step h w tr ->
  files_in_step (FileReceiver.file (file_receiver w)) w' tr' ->
  files_in_step h w' (tr ++ tr').
Proof.
  intros (A & B & _) (A' & B' & C').
  unfold files_in_step.
  rewrite file_use_ok_app, open_after_app, A, B, A', B'.
  repeat split. exact C'.
Qed.

Ltac close_files :=
  unfold files_in_step, receiving_iff_open, is_receiving in *;
  cbn in *; rewrite ?str_eqb_refl; repeat split; try assumption;
  try congruence.

Lemma handle_line_files env line w :
  receiving_iff_open w ->
  files_in_step (FileReceiver.file (file_receiver w))
                (final (handle_line env line w))
                (calls (handle_line env line w)).
Proof.
  intros H.
  destruct w as [ll cv stt bl [rc fl rx hd fs] num buf wd cd].
  unfold_all. all_paths; close_files.
Qed.

Lemma handle_line_files_calls env h line w tr :
  files_in_step h w tr ->
  files_in_step h (final (handle_line env line w))
                (tr ++ calls (handle_line env line w)).
Proof.
  intros H. eapply files_in_step_app; [exact H |].
  apply handle_line_files. apply H.
Qed.

Lemma receive_text_files env data w :
  receiving_iff_open w ->
  files_in_step (FileReceiver.file (file_receiver w))
                (final (receive_text env data w))
                (calls (receive_text env data w)).
Proof.
  intros Hw.
  unfold receive_text, when, _refresh_console_widget, bind, get, modify.
  cbn.
  destruct (contains [NL] (last_line w ++ decode data)); cbn.
  - assert (H0 : files_in_step (FileReceiver.file (file_receiver w))
                   (set_last_line (last_line w ++ decode data) w) []).
    { repeat split. exact Hw. }
    pose proof (for_each_calls
                  (files_in_step (FileReceiver.file (file_receiver w)))
                  (handle_line env)
                  (fun x s tr => handle_line_files_calls env _ x s tr)
                  (splitlines (last_line w ++ decode data)) _ _ H0) as H.
    destruct (for_each _ _ _) as [[[] | e] s1 c1];
      [destruct (endswith [NL] (last_line s1)) |];
      unfold files_in_step, receiving_iff_open, is_receiving in *;
      cbn in *; rewrite ?app_nil_r; exact H.
  - repeat split. exact Hw.
Qed.

Lemma dispatch_files ev w :
  receiving_iff_open w ->
  files_in_step (FileReceiver.file (file_receiver w)) (final (dispatch ev w))
                (calls (dispatch ev w)).
Proof.
  intros H.
  destruct ev as [env data | | | text | env addr urx utx | env | val |].
  - cbn [dispatch]. unfold _handle_notification, bind, get.
    cbn [result final calls].
    destruct (is_receiving w) eqn:Hr.
    + unfold receiving_iff_open in H. rewrite Hr in H.
      destruct w as [ll cv stt bl [rc fl rx hd fs] num buf wd cd].
      unfold is_receiving in Hr. cbn in H, Hr.
      subst rc. destruct fl as [f |]; [| discriminate H].
      unfold_all. all_paths; close_files.
    + pose proof (receive_text_files env data w H) as Ht.
      destruct (receive_text env data w) as [r s1 c1]. exact Ht.
  - destruct w as [ll cv stt bl [rc fl rx hd fs] num buf wd cd].
    unfold_all. all_paths; close_files.
  - destruct w as [ll cv stt bl [rc fl rx hd fs] num buf [iv ac el] cd].
    unfold_all. all_paths; close_files.
  - destruct w as [ll cv stt bl [rc fl rx hd fs] num buf wd cd].
    unfold_all. all_paths; close_files.
  - destruct w as [ll cv stt [cl ca ru tu] [rc fl rx hd fs] num buf wd cd].
    unfold_all. all_paths; close_files.
  - destruct w as [ll cv stt [cl ca ru tu] [rc fl rx hd fs] num buf wd cd].
    unfold_all. all_paths; close_files.
  - destruct w as [ll cv stt bl [rc fl rx hd fs] num buf wd cd].
    unfold_all. all_paths; close_files.
  - destruct w as [ll cv stt bl [rc fl rx hd fs] num buf wd cd].
    unfold_all. all_paths; close_files.
Qed.

Lemma run_files evs :
  forall w,
    receiving_iff_open w ->
    files_in_step (FileReceiver.file (file_receiver w)) (fst (run evs w))
                  (snd (run evs w)).
Proof.
  induction evs as [| ev evs IH]; intros w H.
  - repeat split. exact H.
  - cbn [run].
    pose proof (dispatch_files ev w H) as Hs.
    destruct (dispatch ev w) as [r w1 c1]. cbn [final calls] in Hs.
    assert (H1 : receiving_iff_open w1) by apply Hs.
    specialize (IH w1 H1).
    destruct (run evs w1) as [w2 c2]. cbn [fst snd] in *.
    eapply files_in_step_app; eassumption.
Qed.

(** X8. In every run from a fresh window, whatever the file system and the
    BLE stack do, files are used properly: every write and every close
    names the file opened last, nothing is written or closed when no file
    is open or after the file was closed, the file left open by the calls
    is the one the receiver holds, and the window is Receiving exactly when
    the receiver holds a file. *)
Theorem files_are_used_properly :
  forall evs,
    let r := run evs __init__ in
    file_use_ok None (snd r) = true
    /\ open_after None (snd r) = FileReceiver.file (file_receiver (fst r))
    /\ receiving_iff_open (fst r).
Proof.
  intros evs. apply (run_files evs __init__). reflexivity.
Qed.

(** ** Sending commands *)

Lemma to_byte_N n : (n < 256)%N -> Byte.to_N (to_byte n) = n.
Proof.
  intros H. unfold to_byte. destruct (Byte.of_N n) eqn:E.
  - apply Byte.to_of_N. exact E.
  - apply Byte.of_N_None_iff in E. lia.
Qed.

Lemma to_byte_newline n :
  (n < 256)%N -> Byte.eqb (to_byte n) x0a = (n =? 10)%N.
Proof.
  intros H. destruct (N.eqb_spec n 10) as [-> | Hn]; [reflexivity |].
  destruct (Byte.eqb (to_byte n) x0a) eqn:E; [| reflexivity].
  apply Byte.byte_dec_bl in E.
  apply (f_equal Byte.to_N) in E. rewrite to_byte_N in E by exact H.
  cbn in E. contradiction.
Qed.

Lemma low6_bound c : (low6 c < 64)%N.
Proof.
  unfold low6. change 63%N with (N.ones 6). rewrite N.land_ones.
  apply N.mod_lt. discriminate.
Qed.

Lemma encode_char_newline c :
  ends_with_newline (encode_char c) = (c =? NL)%N.
Proof.
  pose proof (low6_bound c) as Hl.
  assert (Hc : forall n, (n < 64)%N ->
            Byte.eqb (to_byte (128 + n)) x0a = false).
  { intros n Hn. rewrite to_byte_newline by lia. apply N.eqb_neq. lia. }
  unfold encode_char, ends_with_newline, NL.
  destruct (N.ltb_spec c 128) as [H1 | H1].
  - cbn [rev app]. apply to_byte_newline. lia.
  - assert (Hne : (c =? 10)%N = false) by (apply N.eqb_neq; lia).
    rewrite Hne.
    destruct (c <? 2048)%N; [| destruct (c <? 65536)%N];
      cbn [rev app]; apply Hc; exact Hl.
Qed.

Lemma encode_char_nonempty c : encode_char c <> [].
Proof.
  unfold encode_char.
  destruct (c <? 128)%N; [| destruct (c <? 2048)%N; [| destruct (c <? 65536)%N]];
    discriminate.
Qed.

Lemma ends_with_newline_app a b :
  b <> [] -> ends_with_newline (a ++ b) = ends_with_newline b.
Proof.
  intros Hb. unfold ends_with_newline. rewrite rev_app_distr.
  destruct (rev b) as [| x r] eqn:E; [| reflexivity].
  apply (f_equal (@rev byte)) in E. rewrite rev_involutive in E.
  contradiction.
Qed.

(** Encoding succeeds exactly on the texts without surrogates, and then
    encodes character by character. *)
Lemma encode_from_inl s : forall pos d,
  encode_from pos s = inl d ->
  d = flat_map encode_char s
  /\ forallb (fun c => negb (is_surrogate c)) s = true.
Proof.
  induction s as [| c s IH]; intros pos d H; cbn in H |- *.
  - inversion H. split; reflexivity.
  - destruct (is_surrogate c); [discriminate |].
    destruct (encode_from (pos + 1) s) as [bs | msg] eqn:E; [| discriminate].
    inversion H. destruct (IH _ _ E) as [-> Hs]. split; [reflexivity |].
    exact Hs.
Qed.

Lemma encode_from_clean s : forall pos,
  forallb (fun c => negb (is_surrogate c)) s = true ->
  encode_from pos s = inl (flat_map encode_char s).
Proof.
  induction s as [| c s IH]; intros pos H; cbn in H |- *; [reflexivity |].
  apply andb_prop in H. destruct H as [Hc Hs].
  destruct (is_surrogate c); [discriminate |].
  rewrite (IH _ Hs). reflexivity.
Qed.

Lemma endswith_NL_snoc s c : endswith [NL] (s ++ [c]) = (c =? NL)%N.
Proof.
  unfold endswith. rewrite rev_app_distr. cbn [rev app startswith].
  rewrite andb_true_r. rewrite N.eqb_sym. reflexivity.
Qed.

Lemma flat_encode_newline s :
  ends_with_newline (flat_map encode_char s) = endswith [NL] s.
Proof.
  destruct s as [| c s] using rev_ind; [reflexivity |].
  rewrite flat_map_app. cbn [flat_map]. rewrite app_nil_r.
  rewrite ends_with_newline_app by apply encode_char_nonempty.
  rewrite encode_char_newline, endswith_NL_snoc. reflexivity.
Qed.

(** The bytes [send_command] writes for a text are the encoding of the
    text with its final newline. *)
Lemma framed_is_terminated text d :
  encode text = inl d ->
  encode (terminated text)
  = inl (if ends_with_newline d then d else d ++ [x0a]).
Proof.
  intros H. unfold encode in *.
  destruct (encode_from_inl _ _ _ H) as [-> Hs].
  rewrite flat_encode_newline. unfold terminated.
  destruct (endswith [NL] text); [exact H |].
  rewrite encode_from_clean.
  - rewrite flat_map_app. reflexivity.
  - rewrite forallb_app, Hs. reflexivity.
Qed.

Lemma log_emit_out text w :
  log_emit text w
  = if is_receiving w then mkOut (Ok tt) w []
    else mkOut (Ok tt)
           (set_console_view
              (List.concat (items (deque_append text (console_deque w))))
              (set_console_deque (deque_append text (console_deque w)) w))
           [ConsoleAppend text].
Proof.
  unfold log_emit, _append_console. unfold_monad. cbn.
  destruct (is_receiving w); reflexivity.
Qed.

Lemma log_emit_keeps text w :
  let o := log_emit text w in
  result o = Ok tt
  /\ appended (calls o) = logged w text
  /\ opened (calls o) = [] /\ stored (calls o) = [] /\ sent (calls o) = []
  /\ same_transfer w (final o)
  /\ ble (final o) = ble w.
Proof.
  cbv zeta. rewrite log_emit_out. unfold logged, same_transfer.
  destruct (is_receiving w); cbn; repeat split.
Qed.

Lemma send_command_logs gatt text w line :
  (forall o : Out MainWindow unit,
      o = log_emit line w ->
      send_command gatt text w
      = match o with mkOut _ s c => mkOut (Ok None) s c end) ->
  only_logs w line (send_command gatt text w).
Proof.
  intros H. rewrite (H _ eq_refl).
  pose proof (log_emit_keeps line w) as K. cbv zeta in K.
  destruct (log_emit line w) as [r s c]. cbn in *.
  unfold only_logs. cbn. destruct K as (_ & K). split; [reflexivity | exact K].
Qed.

Lemma log_emit_ok line w : result (log_emit line w) = Ok tt.
Proof. rewrite log_emit_out. destruct (is_receiving w); reflexivity. Qed.

Lemma send_command_guard gatt text w :
  linked w && truthy (tx_char_uuid (ble w)) = false ->
  only_logs w (send_complaint w) (send_command gatt text w).
Proof.
  intros H. apply send_command_logs. intros o ->.
  unfold send_command, send_complaint, bind, get, ret. cbn [result final calls].
  fold (linked w). destruct (linked w); cbn [negb andb] in *.
  - rewrite H. cbn [negb].
    pose proof (log_emit_ok (lit "No TX characteristic configured" ++ [NL]) w) as R.
    destruct (log_emit _ w) as [r s c]. cbn in R. subst r.
    rewrite app_nil_r. reflexivity.
  - pose proof (log_emit_ok (lit "Not connected: cannot send" ++ [NL]) w) as R.
    destruct (log_emit _ w) as [r s c]. cbn in R. subst r.
    rewrite app_nil_r. reflexivity.
Qed.

(** X9. A command cannot be sent when the worker has no connected client or
    no TX characteristic: [send_command] then writes nothing and returns
    normally. All it does is to log the reason, which reaches the console
    only while no transfer is open; during a transfer the command is
    dropped without a trace. The transfer is left as it is. *)
Theorem unsendable_command_is_only_logged :
  forall (gatt_raises : option str) (text : str) (w : MainWindow),
    linked w && truthy (tx_char_uuid (ble w)) = false ->
    only_logs w (send_complaint w) (send_command gatt_raises text w).
Proof.
  intros gatt text w H. apply send_command_guard. exact H.
Qed.

(** An acknowledgement on a window that was never connected. *)
Lemma unsendable_command_is_only_logged_witness :
  only_logs __init__ (send_complaint __init__)
    (send_command None FIL_ACK __init__).
Proof.
  apply (unsendable_command_is_only_logged None FIL_ACK __init__).
  reflexivity.
Defined.

(** X10. With a connected client and a TX characteristic, a command
    without surrogates is written to the characteristic [rx_char_uuid] as
    the UTF-8 encoding of the text with one final newline: a newline is
    added exactly when the text does not end with one. The command is
    logged with a newline of its own, and the transfer is left as it is. *)
Theorem send_writes_one_terminated_line :
  forall (text : str) (w : MainWindow) (d : bytes),
    linked w = true ->
    truthy (tx_char_uuid (ble w)) = true ->
    encode text = inl d ->
    let o := send_command None text w in
    exists v,
      result o = Ok (Some (mkGattWrite (rx_char_uuid (ble w)) v))
      /\ encode (terminated text) = inl v
      /\ ends_with_newline v = true
      /\ appended (calls o) = logged w (lit "> " ++ text ++ [NL])
      /\ same_transfer w (final o).
Proof.
  intros text w d Hl Ht He o. subst o.
  pose proof (framed_is_terminated text d He) as Hf.
  exists (if ends_with_newline d then d else d ++ [x0a]).
  unfold send_command, bind, get, ret. cbn [result final calls].
  fold (linked w). rewrite Hl, Ht, He. cbn [negb].
  pose proof (log_emit_keeps (lit "> " ++ text ++ [NL]) w) as K.
  cbv zeta in K.
  destruct (log_emit _ w) as [r s c]. cbn in *.
  destruct K as (-> & Ka & _ & _ & _ & Ks & _).
  rewrite app_nil_r.
  repeat split; try assumption; try apply Ks.
  destruct (ends_with_newline d) eqn:E; [exact E |].
  rewrite ends_with_newline_app by discriminate. reflexivity.
Qed.

(** A keep-alive acknowledgement on a connected window. *)
Lemma send_writes_one_terminated_line_witness :
  let o := send_command None FIL_ACK connected_idle in
  exists v,
    result o = Ok (Some (mkGattWrite (rx_char_uuid (ble connected_idle)) v))
    /\ encode (terminated FIL_ACK) = inl v
    /\ ends_with_newline v = true
    /\ appended (calls o) = logged connected_idle (lit "> " ++ FIL_ACK ++ [NL])
    /\ same_transfer connected_idle (final o).
Proof.
  apply (send_writes_one_terminated_line FIL_ACK connected_idle
           (list_byte_of_string "FIL:ACK" ++ [x0a])); reflexivity.
Defined.

(** X11. A command that cannot be encoded (it holds a surrogate) and a
    write that raises are caught by [send_command]: the slot returns
    normally, nothing is written, and the error is logged as
    "Send failed: ..." (to the console only while no transfer is open). The
    text of an encoding error names the surrogate and its position. *)
Theorem failed_send_is_only_logged :
  forall (gatt_raises : option str) (text msg : str) (w : MainWindow),
    linked w = true ->
    truthy (tx_char_uuid (ble w)) = true ->
    encode text = inr msg
    \/ (exists d, encode text = inl d) /\ gatt_raises = Some msg ->
    only_logs w (lit "Send failed: " ++ msg ++ [NL])
      (send_command gatt_raises text w).
Proof.
  intros gatt text msg w Hl Ht H. apply send_command_logs. intros o ->.
  unfold send_command, bind, get, ret. cbn [result final calls].
  fold (linked w). rewrite Hl, Ht. cbn [negb].
  pose proof (log_emit_ok (lit "Send failed: " ++ msg ++ [NL]) w) as R.
  destruct H as [He | [[d He] ->]]; rewrite He;
    destruct (log_emit _ w) as [r s c]; cbn in R; subst r;
    rewrite app_nil_r; reflexivity.
Qed.

(** The text "a" followed by the surrogate U+D800. *)
Lemma failed_send_is_only_logged_witness :
  only_logs connected_idle
    (lit "Send failed: "
     ++ lit "'utf-8' codec can't encode character '\ud800' in position 1: surrogates not allowed"
     ++ [NL])
    (send_command None [97; 55296]%N connected_idle).
Proof.
  apply (failed_send_is_only_logged None [97; 55296]%N _ connected_idle);
    [reflexivity | reflexivity | left; reflexivity].
Defined.

Lemma disconnect_drops_client env w :
  let w1 := final (disconnect env w) in
  client (ble w1) = None /\ is_receiving w1 = is_receiving w
  /\ same_transfer w w1.
Proof.
  destruct w as [ll cv stt [cl ca ru tu] [rc fl rx hd fs] num buf wd cd].
  unfold same_transfer. unfold_all. all_paths; repeat split.
Qed.

(** X12. After [disconnect], whatever the window was and whether or not
    the client's disconnect raised, no command is written any more: every
    [send_command] only logs "Not connected: cannot send". The transfer is
    not touched by the disconnect, so when one is open it stays open, and
    the acknowledgements it goes on asking for are dropped without a word
    on the console. *)
Theorem nothing_is_sent_after_disconnect :
  forall (env : Env) (gatt_raises : option str) (text : str) (w : MainWindow),
    let w1 := final (disconnect env w) in
    only_logs w1 (lit "Not connected: cannot send" ++ [NL])
      (send_command gatt_raises text w1)
    /\ is_receiving w1 = is_receiving w
    /\ same_transfer w w1.
Proof.
  intros env gatt text w w1.
  destruct (disconnect_drops_client env w) as (Hc & Hr & Hs).
  fold w1 in Hc, Hr, Hs. split; [| split; assumption].
  assert (Hl : linked w1 = false) by (unfold linked; rewrite Hc; reflexivity).
  pose proof (send_command_guard gatt text w1) as G.
  unfold send_complaint in G. rewrite Hl in G. apply G. reflexivity.
Qed.

Lemma connect_ok env addr rx tx w :
  connect_raises env = None ->
  let w1 := final (connect env addr rx tx w) in
  ble w1 = mkBLE (Some (mkClient addr true)) (Some addr) rx tx
  /\ status w1 = lit "Connected"
  /\ same_transfer w w1.
Proof.
  intros He.
  destruct w as [ll cv stt [cl ca ru tu] [rc fl rx0 hd fs] num buf wd cd].
  unfold same_transfer. unfold_all. rewrite He. all_paths; repeat split.
Qed.

Lemma truthy_or_None s : truthy (or_None s) = negb (str_eqb s []).
Proof. destruct s; reflexivity. Qed.

(** X13. What the two UUID fields mean once [on_connect_clicked] has
    connected: commands are written to the characteristic named in the RX
    field (without the blanks around it), and they are written only if the
    TX field is not blank. With a blank TX field the status reads
    "Connected" and yet every [send_command] only logs
    "No TX characteristic configured". The connection leaves the transfer
    as it is. *)
Theorem connect_fields_decide_sending :
  forall (env : Env) (addr rx_text tx_text text : str) (w : MainWindow)
         (d : bytes),
    connect_raises env = None ->
    encode text = inl d ->
    let w1 := final (on_connect_clicked env (Some addr) rx_text tx_text w) in
    let o := send_command None text w1 in
    status w1 = lit "Connected"
    /\ same_transfer w w1
    /\ match strip tx_text with
       | [] => only_logs w1 (lit "No TX characteristic configured" ++ [NL]) o
       | _ :: _ =>
         exists v,
           result o = Ok (Some (mkGattWrite (or_None (strip rx_text)) v))
           /\ encode (terminated text) = inl v
       end.
Proof.
  intros env addr rx_text tx_text text w d He Hd w1 o.
  destruct (connect_ok env addr (or_None (strip rx_text))
              (or_None (strip tx_text)) w He) as (Hb & Hst & Hs).
  change (final (connect env addr (or_None (strip rx_text))
                   (or_None (strip tx_text)) w)) with w1 in Hb, Hst, Hs.
  split; [exact Hst |]. split; [exact Hs |].
  assert (Hl : linked w1 = true) by (unfold linked; rewrite Hb; reflexivity).
  destruct (strip tx_text) as [| c r] eqn:Et.
  - pose proof (send_command_guard None text w1) as G.
    unfold send_complaint in G. rewrite Hl in G. apply G.
    rewrite Hb. reflexivity.
  - pose proof (framed_is_terminated text d Hd) as Hf.
    exists (if ends_with_newline d then d else d ++ [x0a]).
    split; [| exact Hf]. subst o.
    unfold send_command, bind, get, ret. cbn [result final calls].
    assert (Htx : truthy (tx_char_uuid (ble w1)) = true)
      by (rewrite Hb; reflexivity).
    assert (Hrx : rx_char_uuid (ble w1) = or_None (strip rx_text))
      by (rewrite Hb; reflexivity).
    fold (linked w1). rewrite Hl, Htx, Hd, Hrx. cbn [negb].
    pose proof (log_emit_ok (lit "> " ++ text ++ [NL]) w1) as R.
    destruct (log_emit _ w1) as [r0 s c0]. cbn in R. subst r0.
    reflexivity.
Qed.

(** The acknowledgement after a connection with a blank TX field. *)
Lemma connect_fields_decide_sending_witness :
  let w1 := final (on_connect_clicked calm (Some (lit "C0:FF:EE:00:00:01"))
                     UART_RX_CHAR_UUID (lit "  ") __init__) in
  let o := send_command None FIL_ACK w1 in
  status w1 = lit "Connected"
  /\ same_transfer __init__ w1
  /\ only_logs w1 (lit "No TX characteristic configured" ++ [NL]) o.
Proof.
  apply (connect_fields_decide_sending calm (lit "C0:FF:EE:00:00:01")
           UART_RX_CHAR_UUID (lit "  ") FIL_ACK __init__
           (list_byte_of_string "FIL:ACK" ++ [x0a])); reflexivity.
Defined.

Lemma lstrip_head s : startswith [NL] (lstrip s) = false.
Proof.
  induction s as [| c s IH]; [reflexivity |].
  cbn [lstrip]. destruct (isspace c) eqn:E; [exact IH |].
  cbn [startswith]. destruct (N.eqb_spec NL c) as [<- | _]; [| reflexivity].
  discriminate E.
Qed.

Lemma strip_no_newline s : endswith [NL] (strip s) = false.
Proof.
  unfold endswith, strip. rewrite rev_involutive. apply lstrip_head.
Qed.

(** X14. What [on_send_scpi] sends for the text of the command field: if
    the field holds only blanks nothing happens at all (no write, no log,
    no change of state); otherwise the command is written without the
    blanks around it and with exactly one newline after it, the stripped
    text itself never ending with one. *)
Theorem command_field_is_sent_stripped :
  forall (gatt_raises : option str) (input : str) (w : MainWindow),
    (strip input = [] ->
     on_send_scpi gatt_raises input w = mkOut (Ok None) w [])
    /\ (forall d,
          strip input <> [] ->
          linked w = true ->
          truthy (tx_char_uuid (ble w)) = true ->
          encode (strip input) = inl d ->
          result (on_send_scpi None input w)
          = Ok (Some (mkGattWrite (rx_char_uuid (ble w)) (d ++ [x0a])))
          /\ ends_with_newline d = false).
Proof.
  intros gatt input w. split.
  - intros H. unfold on_send_scpi. rewrite H. reflexivity.
  - intros d Hne Hl Ht Hd.
    assert (Hn : ends_with_newline d = false).
    { unfold encode in Hd. destruct (encode_from_inl _ _ _ Hd) as [-> _].
      rewrite flat_encode_newline. apply strip_no_newline. }
    split; [| exact Hn].
    unfold on_send_scpi. destruct (strip input) as [| c r] eqn:Es;
      [contradiction |].
    unfold send_command, bind, get, ret. cbn [result final calls].
    fold (linked w). rewrite Hl, Ht, Hd, Hn. cbn [negb].
    pose proof (log_emit_ok (lit "> " ++ (c :: r) ++ [NL]) w) as R.
    destruct (log_emit _ w) as [r0 s c0]. cbn in R. subst r0. reflexivity.
Qed.

(** The identification query typed with blanks around it. *)
Lemma command_field_is_sent_stripped_witness :
  (strip (lit "  *IDN? ") = [] ->
   on_send_scpi None (lit "  *IDN? ") connected_idle
   = mkOut (Ok None) connected_idle [])
  /\ (result (on_send_scpi None (lit "  *IDN? ") connected_idle)
      = Ok (Some (mkGattWrite (rx_char_uuid (ble connected_idle))
                    (list_byte_of_string "*IDN?" ++ [x0a])))
      /\ ends_with_newline (list_byte_of_string "*IDN?") = false).
Proof.
  destruct (command_field_is_sent_stripped None (lit "  *IDN? ")
              connected_idle) as [A B].
  split; [exact A |].
  apply (B (list_byte_of_string "*IDN?")); try reflexivity. discriminate.
Defined.

(** ** The names of the files that are opened *)

Lemma components_single s : forall cur,
  ~ In SLASH cur -> Forall single_component (components cur s).
Proof.
  unfold single_component.
  induction s as [| c s IH]; intros cur Hcur; cbn [components].
  - constructor; [| constructor]. intros H. apply in_rev in H. auto.
  - destruct (N.eqb_spec c SLASH) as [-> | Hc].
    + constructor.
      * intros H. apply in_rev in H. auto.
      * apply IH. intros [].
    + apply IH. intros [H | H]; [congruence | auto].
Qed.

Lemma last_keeps {A} (P : A -> Prop) l d :
  Forall P l -> P d -> P (last l d).
Proof.
  intros Hl Hd. induction Hl as [| x l Hx Hl IH]; [exact Hd |].
  destruct l; [exact Hx | exact IH].
Qed.

Lemma path_name_single s : single_component (path_name s).
Proof.
  unfold path_name. apply last_keeps; [| intros []].
  apply Forall_forall. intros p Hp. apply filter_In in Hp.
  destruct Hp as [Hp _].
  pose proof (components_single s [] (fun H => H)) as H.
  rewrite Forall_forall in H. apply H. exact Hp.
Qed.

Lemma handle_line_opens env line w tr :
  Forall single_component (opened tr) ->
  Forall single_component (opened (tr ++ calls (handle_line env line w))).
Proof.
  intros H. rewrite opened_app. apply Forall_app. split; [exact H |].
  destruct w as [ll cv stt bl [rc fl rx hd fs] num buf wd cd].
  unfold_all. all_paths;
    repeat first [apply Forall_nil | apply Forall_cons
                 | apply path_name_single].
Qed.

Lemma receive_text_opens env data w :
  Forall single_component (opened (calls (receive_text env data w))).
Proof.
  unfold receive_text, when, _refresh_console_widget, bind, get, modify.
  cbn.
  destruct (contains [NL] (last_line w ++ decode data)); cbn.
  - pose proof (for_each_calls
                  (fun _ tr => Forall single_component (opened tr))
                  (handle_line env)
                  (fun x s tr => handle_line_opens env x s tr)
                  (splitlines (last_line w ++ decode data))
                  (set_last_line (last_line w ++ decode data) w) []
                  (Forall_nil _)) as H.
    destruct (for_each _ _ _) as [[[] | e] s1 c1];
      [destruct (endswith [NL] (last_line s1)) |];
      cbn in *; rewrite ?app_nil_r; exact H.
  - constructor.
Qed.

Lemma dispatch_opens ev w :
  Forall single_component (opened (calls (dispatch ev w))).
Proof.
  destruct ev as [env data | | | text | env addr urx utx | env | val |].
  - cbn [dispatch]. unfold _handle_notification, bind, get.
    cbn [result final calls].
    destruct (is_receiving w) eqn:Hr.
    + destruct w as [ll cv stt bl [rc fl rx hd fs] num buf wd cd].
      unfold_all. all_paths; constructor.
    + pose proof (receive_text_opens env data w) as Ht.
      destruct (receive_text env data w) as [r s1 c1]. exact Ht.
  - destruct w as [ll cv stt bl [rc fl rx hd fs] num buf wd cd].
    unfold_all. all_paths; constructor.
  - destruct w as [ll cv stt bl [rc fl rx hd fs] num buf [iv ac el] cd].
    unfold_all. all_paths; constructor.
  - destruct w as [ll cv stt bl [rc fl rx hd fs] num buf wd cd].
    unfold_all. all_paths; constructor.
  - destruct w as [ll cv stt [cl ca ru tu] [rc fl rx hd fs] num buf wd cd].
    unfold_all. all_paths; constructor.
  - destruct w as [ll cv stt [cl ca ru tu] [rc fl rx hd fs] num buf wd cd].
    unfold_all. all_paths; constructor.
  - destruct w as [ll cv stt bl [rc fl rx hd fs] num buf wd cd].
    unfold_all. all_paths; constructor.
  - destruct w as [ll cv stt bl [rc fl rx hd fs] num buf wd cd].
    unfold_all. all_paths; constructor.
Qed.

(** X15. Whatever file name a directive carries, the name handed to [open]
    is a single path component: in every run, from every window, no file
    is opened under a name with a slash in it. The directories that a
    directive names before the file are never used. *)
Theorem opened_names_are_single_components :
  forall (evs : list Event) (w : MainWindow),
    Forall single_component (opened (snd (run evs w))).
Proof.
  induction evs as [| ev evs IH]; intros w; [constructor |].
  cbn [run].
  pose proof (dispatch_opens ev w) as Hs.
  destruct (dispatch ev w) as [r w1 c1]. cbn [calls] in Hs.
  specialize (IH w1). destruct (run evs w1) as [w2 c2]. cbn [snd] in *.
  rewrite opened_app. apply Forall_app. split; assumption.
Qed.

(** ** Reading a directive *)

Lemma lit_String a s :
  lit (String a s) = Byte.to_N (Ascii.byte_of_ascii a) :: lit s.
Proof. reflexivity. Qed.

Lemma digits_char b acc n a s k :
  decimal (Byte.to_N (Ascii.byte_of_ascii a)) = Some k ->
  (Byte.to_N (Ascii.byte_of_ascii a) =? UNDERSCORE)%N = false ->
  digits b acc n (lit (String a s))
  = digits true (10 * acc + k) (S n) (lit s).
Proof.
  intros Hd Hu. rewrite lit_String. cbn [digits]. rewrite Hu, Hd.
  reflexivity.
Qed.

Lemma digits_uint d : forall b acc n,
  (d = Decimal.Nil -> b = true) ->
  digits b acc n (lit (NilEmpty.string_of_uint d))
  = Some (uval d acc, (n + Decimal.nb_digits d)%nat).
Proof.
  induction d; intros b acc n Hb;
    cbn [NilEmpty.string_of_uint uval Decimal.nb_digits];
    try (erewrite digits_char; [| reflexivity | reflexivity];
         rewrite IHd by reflexivity; rewrite Nat.add_succ_r; reflexivity).
  rewrite (Hb eq_refl). cbn. rewrite Nat.add_0_r. reflexivity.
Qed.

Lemma uval_pos d : forall acc,
  uval d (Z.pos acc) = Z.pos (Pos.of_uint_acc d acc).
Proof.
  induction d; intros acc; cbn [uval Pos.of_uint_acc];
    try reflexivity;
    match goal with
    | |- uval _ ?z = Z.pos (Pos.of_uint_acc _ ?p) =>
      replace z with (Z.pos p) by lia
    end; apply IHd.
Qed.

Lemma uval_0 d : uval d 0 = Z.of_uint d.
Proof.
  unfold Z.of_uint.
  induction d; cbn [uval Pos.of_uint]; try reflexivity;
    try (change (10 * 0 + 0) with 0; exact IHd);
    match goal with
    | |- uval _ ?z = _ => let p := eval cbn in z in change z with p
    end; rewrite uval_pos; reflexivity.
Qed.

Lemma uint_chars d :
  Forall number_char (lit (NilEmpty.string_of_uint d)).
Proof.
  unfold number_char.
  induction d; cbn [NilEmpty.string_of_uint]; try rewrite lit_String;
    constructor; try exact IHd; cbn; lia.
Qed.

Lemma uint_length d :
  List.length (lit (NilEmpty.string_of_uint d)) = Decimal.nb_digits d.
Proof.
  induction d; cbn [NilEmpty.string_of_uint Decimal.nb_digits];
    try rewrite lit_String; cbn [List.length]; try rewrite IHd; reflexivity.
Qed.

Lemma uint_head d :
  d <> Decimal.Nil ->
  exists c r,
    lit (NilEmpty.string_of_uint d) = c :: r
    /\ (c =? 45)%N = false /\ (c =? 43)%N = false.
Proof.
  intros H. destruct d; [contradiction | ..];
    cbn [NilEmpty.string_of_uint]; rewrite lit_String;
    eexists; eexists; repeat split.
Qed.

Ltac decide_tests :=
  repeat match goal with
         | |- context [(?a <=? ?b)%N] => destruct (N.leb_spec a b); try lia
         | |- context [(?a <? ?b)%N] => destruct (N.ltb_spec a b); try lia
         | |- context [(?a =? ?b)%N] => destruct (N.eqb_spec a b); try lia
         end.

Lemma number_char_not_space c :
  number_char c -> isspace c = false /\ int_space c = false.
Proof.
  unfold number_char, int_space, isspace. intros H.
  split; decide_tests; reflexivity.
Qed.

Lemma lstrip_number s : Forall number_char s -> lstrip s = s.
Proof.
  intros H. destruct H as [| c s Hc Hs]; [reflexivity |].
  cbn [lstrip]. destruct (number_char_not_space c Hc) as [-> _].
  reflexivity.
Qed.

Lemma int_lstrip_number s : Forall number_char s -> int_lstrip s = s.
Proof.
  intros H. destruct H as [| c s Hc Hs]; [reflexivity |].
  cbn [int_lstrip]. destruct (number_char_not_space c Hc) as [_ ->].
  reflexivity.
Qed.

Lemma strip_number_line s :
  Forall number_char s -> s <> [] -> strip (s ++ [NL]) = s.
Proof.
  intros H Hne. unfold strip.
  assert (E : lstrip (s ++ [NL]) = s ++ [NL]).
  { destruct H as [| c s Hc Hs]; [contradiction |].
    cbn [app lstrip]. destruct (number_char_not_space c Hc) as [-> _].
    reflexivity. }
  rewrite E, rev_app_distr. cbn [rev app lstrip].
  change (isspace NL) with true. cbv iota.
  rewrite lstrip_number by (apply Forall_rev; exact H).
  apply rev_involutive.
Qed.

Lemma str_of_int_chars n :
  Forall number_char (str_of_int n) /\ str_of_int n <> [].
Proof.
  unfold str_of_int.
  assert (U : forall d,
             Forall number_char (lit (NilZero.string_of_uint d))
             /\ lit (NilZero.string_of_uint d) <> []).
  { intros d. pose proof (uint_chars d) as H.
    destruct d; cbn [NilZero.string_of_uint]; cbn [NilEmpty.string_of_uint] in *;
      try (split; [exact H | rewrite lit_String; discriminate]).
    split; [| discriminate]. constructor; [| constructor].
    unfold number_char. cbn. lia. }
  destruct (Z.to_int n) as [d | d]; cbn [NilZero.string_of_int].
  - apply U.
  - rewrite lit_String. split; [| discriminate].
    constructor; [unfold number_char; cbn; lia | apply U].
Qed.

Lemma int_unsigned d (neg : bool) :
  d <> Decimal.Nil ->
  (Decimal.nb_digits d <= int_max_str_digits)%nat ->
  int ((if neg then [45%N] else []) ++ lit (NilEmpty.string_of_uint d))
  = Some (if neg then - Z.of_uint d else Z.of_uint d).
Proof.
  intros Hd Hn.
  assert (Hc : Forall number_char
                 ((if neg then [45%N] else [])
                  ++ lit (NilEmpty.string_of_uint d))).
  { apply Forall_app. split; [| apply uint_chars].
    destruct neg; repeat constructor; unfold number_char; lia. }
  unfold int.
  rewrite (int_lstrip_number _ Hc).
  rewrite (int_lstrip_number _ (Forall_rev Hc)), rev_involutive.
  destruct (uint_head d Hd) as (c & r & E & H1 & H2).
  destruct neg; cbn [app].
  - change (45 =? 45)%N with true. cbv iota beta.
    rewrite digits_uint by (intros; contradiction).
    cbn [Nat.add]. apply Nat.leb_le in Hn. rewrite Hn, uval_0. reflexivity.
  - rewrite E, H1, H2. rewrite <- E. cbv iota beta.
    rewrite digits_uint by (intros; contradiction).
    cbn [Nat.add]. apply Nat.leb_le in Hn. rewrite Hn, uval_0. reflexivity.
Qed.

Lemma to_uint_not_nil p : Pos.to_uint p <> Decimal.Nil.
Proof.
  intros H. pose proof (DecimalPos.Unsigned.of_to p) as E.
  rewrite H in E. discriminate E.
Qed.

Lemma nilzero_uint d :
  d <> Decimal.Nil ->
  NilZero.string_of_uint d = NilEmpty.string_of_uint d.
Proof. intros H. destruct d; [contradiction | ..]; reflexivity. Qed.

(** [int(str(n))] is [n], within the limit on the number of digits. *)
Lemma int_str_of_int n :
  (List.length (str_of_int n) <= int_max_str_digits)%nat ->
  int (str_of_int n) = Some n.
Proof.
  intros H. pose proof (DecimalZ.of_to n) as E.
  unfold str_of_int in *. destruct n as [| p | p]; [reflexivity | |];
    cbn [Z.to_int NilZero.string_of_int] in *;
    pose proof (to_uint_not_nil p) as Hp;
    rewrite (nilzero_uint _ Hp) in *.
  - rewrite uint_length in H.
    pose proof (int_unsigned _ false Hp H) as I. cbn [app] in I.
    rewrite I. f_equal. exact E.
  - rewrite lit_String in H. cbn [List.length] in H.
    rewrite uint_length in H.
    assert (H' : (Decimal.nb_digits (Pos.to_uint p) <= int_max_str_digits)%nat)
      by lia.
    pose proof (int_unsigned _ true Hp H') as I. cbn [app] in I.
    change (int (45%N :: lit (NilEmpty.string_of_uint (Pos.to_uint p)))
            = Some (Z.neg p)).
    rewrite I. f_equal. exact E.
Qed.

Lemma split1_at sep a b :
  ~ In sep a -> split1 sep (a ++ sep :: b) = (a, Some b).
Proof.
  induction a as [| c a IH]; intros H; cbn [app split1].
  - rewrite N.eqb_refl. reflexivity.
  - destruct (N.eqb_spec c sep) as [-> | _].
    + exfalso. apply H. left. reflexivity.
    + rewrite IH; [reflexivity |]. intros Hin. apply H. right. exact Hin.
Qed.

(** X16. A directive written as the source expects it, "Sending file:
    name,size" and a newline, is read back as that name and that size: the
    file name may be any text without a comma that neither starts nor ends
    with a blank (colons are allowed), the size any integer whose decimal
    form is within Python's limit on the number of digits (a negative size
    is accepted), and the marker may be preceded by any text without a
    colon. *)
Theorem well_formed_directive_is_parsed :
  forall (pre name : str) (size : Z),
    ~ In COLON pre ->
    ~ In COMMA name ->
    strip name = name ->
    (List.length (str_of_int size) <= int_max_str_digits)%nat ->
    parse_directive (directive_line pre name size) = Ok (name, size).
Proof.
  intros pre name size Hpre Hname Hstrip Hlen.
  unfold parse_directive, directive_line.
  change MARKER with (lit "Sending file" ++ [COLON]).
  replace (pre ++ (lit "Sending file" ++ [COLON]) ++ lit " " ++ name
           ++ [COMMA] ++ str_of_int size ++ [NL])
    with ((pre ++ lit "Sending file")
          ++ COLON :: ((32%N :: name) ++ COMMA :: (str_of_int size ++ [NL])))
    by (rewrite <- !app_assoc; reflexivity).
  rewrite split1_at.
  - cbn [unpack2]. rewrite split1_at.
    + cbn [unpack2].
      destruct (str_of_int_chars size) as [Hc Hne].
      rewrite (strip_number_line _ Hc Hne).
      rewrite (int_str_of_int size Hlen).
      assert (Hs : strip (32%N :: name) = strip name) by reflexivity.
      rewrite Hs, Hstrip. reflexivity.
    + intros [H | H]; [discriminate H | auto].
  - intros H. apply in_app_or in H. destruct H as [H | H]; [auto |].
    vm_compute in H. repeat destruct H as [H | H]; try discriminate H.
    exact H.
Qed.

(** A negative size after a time stamp. *)
Lemma well_formed_directive_is_parsed_witness :
  parse_directive (directive_line (lit "[12.5] ") (lit "run 1:a.bin") (-7))
  = Ok (lit "run 1:a.bin", -7).
Proof.
  apply (well_formed_directive_is_parsed (lit "[12.5] ") (lit "run 1:a.bin")
           (-7)).
  - vm_compute. intuition discriminate.
  - vm_compute. intuition discriminate.
  - reflexivity.
  - vm_compute. repeat constructor.
Defined.

(** ** The commands the window sends by itself *)

Lemma dispatch_sends ev w :
  Forall ack_or_nack (sent (calls (dispatch ev w))).
Proof.
  assert (A : ack_or_nack FIL_ACK) by (left; reflexivity).
  assert (B : ack_or_nack FIL_NACK) by (right; reflexivity).
  destruct ev as [env data | | | text | env addr urx utx | env | val |].
  - cbn [dispatch]. unfold _handle_notification, bind, get.
    cbn [result final calls].
    destruct (is_receiving w) eqn:Hr.
    + destruct w as [ll cv stt bl [rc fl rx hd fs] num buf wd cd].
      unfold_all. all_paths; repeat constructor; assumption.
    + pose proof (receive_text_effects env data w) as Ht.
      destruct (receive_text env data w) as [r s1 c1]. cbn [calls] in *.
      destruct (text_effects_quiet c1 Ht) as [_ Hq].
      change (Forall ack_or_nack (sent c1)). rewrite Hq. constructor.
  - destruct w as [ll cv stt bl [rc fl rx hd fs] num buf wd cd].
    unfold_all. all_paths; repeat constructor; assumption.
  - destruct w as [ll cv stt bl [rc fl rx hd fs] num buf [iv ac el] cd].
    unfold_all. all_paths; repeat constructor; assumption.
  - destruct w as [ll cv stt bl [rc fl rx hd fs] num buf wd cd].
    unfold_all. all_paths; repeat constructor.
  - destruct w as [ll cv stt [cl ca ru tu] [rc fl rx hd fs] num buf wd cd].
    unfold_all. all_paths; repeat constructor.
  - destruct w as [ll cv stt [cl ca ru tu] [rc fl rx hd fs] num buf wd cd].
    unfold_all. all_paths; repeat constructor.
  - destruct w as [ll cv stt bl [rc fl rx hd fs] num buf wd cd].
    unfold_all. all_paths; repeat constructor.
  - destruct w as [ll cv stt bl [rc fl rx hd fs] num buf wd cd].
    unfold_all. all_paths; repeat constructor.
Qed.

(** X17. The only commands the window sends of its own accord, in every
    run and from every window, are "FIL:ACK" and "FIL:NACK", each with its
    newline; [send_command] therefore writes them as they are, without
    adding a newline. *)
Theorem only_acks_and_nacks_are_sent :
  forall (evs : list Event) (w : MainWindow),
    Forall (fun command =>
              ack_or_nack command /\ terminated command = command)
           (sent (snd (run evs w))).
Proof.
  assert (T : forall c, ack_or_nack c ->
                ack_or_nack c /\ terminated c = c).
  { intros c H. split; [exact H |]. destruct H as [-> | ->]; reflexivity. }
  induction evs as [| ev evs IH]; intros w; [constructor |].
  cbn [run].
  pose proof (dispatch_sends ev w) as Hs.
  destruct (dispatch ev w) as [r w1 c1]. cbn [calls] in Hs.
  specialize (IH w1). destruct (run evs w1) as [w2 c2]. cbn [snd] in *.
  rewrite sent_app. apply Forall_app. split; [| exact IH].
  eapply Forall_impl; [exact T | exact Hs].
Qed.
